(** * Promise Pool: a shallow embedding of [src/lib/promise-pool.ts]

    The [Pool<T>] class is modelled as a record [machine] holding its fields
    (with their source names) together with the part of the asynchronous world
    that its code talks to: the promise chains of admitted tasks
    ([inflight]) and the continuations that [reset] attached to a pause
    promise.  Every method is written in a small state / output / exception
    monad [M], statement by statement; a JS exception aborts the rest of the
    method but keeps the mutations already done.

    The asynchronous world moves through [event]s: a public call, the
    processor of an admitted task being invoked ([EInvoke]), the processor's
    promise settling ([ESettle]), the [reset] continuation running
    ([EResetThen]), or a public field being reassigned.

    Time is not modelled: the backoff delays of [q-retry] only decide when
    an [EInvoke] of a retried task may happen, which the event order already
    leaves open. *)

From Stdlib Require Import List ZArith Lia String Bool.
Import ListNotations.

Module PromisePool.

Open Scope Z_scope.

(** Error values ([any] in the source: rejection reasons and thrown values),
    identified by a number. *)
Definition err := nat.

(** The [retries] option: a non-negative integer or [Infinity]. *)
Inductive limit := Fin (n : nat) | Inf.

(** JS truthiness of the [retries] argument handed to [onFail]. *)
Definition limit_truthy (l : limit) : bool :=
  match l with Fin 0 => false | _ => true end.

(** [retries - 1] as [q-retry] counts down ([Infinity - 1 = Infinity]). *)
Definition limit_pred (l : limit) : limit :=
  match l with Fin n => Fin (Nat.pred n) | Inf => Inf end.

(** [interface IResult] *)
Record IResult := {
  r_fulfilled : Z;
  r_rejected : Z;
  r_total : Z }.

(** [interface IProgress]; [error] and [retries] are [null] where the code
    passes [null]. *)
Record IProgress := {
  p_index : Z;
  p_success : bool;
  p_error : option err;
  p_retries : option limit;
  p_fulfilled : Z;
  p_rejected : Z;
  p_pending : Z;
  p_total : Z }.

(** An [onProgress] callback: it returns normally ([None]) or throws. *)
Definition observer := IProgress -> option err.

(** State of a [Q.Deferred<IResult>]. *)
Inductive dstate := DPending | DResolved (r : IResult) | DRejected (e : err).

(** State of the [Q.Deferred<void>] held in [_pauseDeferred]. *)
Inductive pstate := PPending | PResolved.

(** What a processor's promise settles to. *)
Inductive outcome := Fulfilled | Rejected (reason : err).

(** Exceptions raised by the pool's code. *)
Inductive exn :=
| ExnObserver (e : err)  (* thrown by [onProgress] *)
| ExnType.               (* [TypeError]: a method called on [undefined]/[null] *)

Section Pool.

Context {T : Type}.

(** An admitted task: the promise chain [_process] built with [Q.retry].
    [t_left] is the [retries] count [q-retry] will hand to [onFail] at the
    next failure; [t_running] says whether the processor has been invoked
    for the current attempt. *)
Record task := {
  t_data : T;
  t_index : Z;
  t_left : limit;
  t_running : bool }.

Record machine := {
  concurrency : Z;
  _tasksData : list T;
  _deferred : option dstate;          (* [undefined] / [null] is [None] *)
  _pauseDeferred : option pstate;
  fulfilled : Z;
  rejected : Z;
  pending : Z;
  total : Z;
  endless : bool;
  retries : limit;
  _index : Z;
  _currentConcurrency : Z;
  onProgress : option observer;
  inflight : list task;               (* promise chains of admitted tasks *)
  resetsWaiting : nat;                (* [reset] continuations on a pending pause promise *)
  resetsReady : nat }.                (* [reset] continuations whose pause promise resolved *)

(** Observable effects of a step. *)
Inductive out :=
| OWarn (msg : string)                  (* console.warn *)
| OEnqueue (items : list T)             (* items appended to the backlog by [add] *)
| OAdmit (data : T) (index : Z)         (* [_process(data, index)] called *)
| OInvoke (data : T) (index : Z)        (* the processor called with [(data, index)] *)
| OProgress (p : IProgress) (thrown : option err)  (* [onProgress(p)] called *)
| OStartReturn (promise : bool)         (* [start()] returned a promise (or [null]) *)
| OThrown (e : exn)                     (* exception escaping a public call *)
| OUnhandled (e : exn)                  (* exception thrown inside a promise callback *)
| OResetDone.                           (* the promise returned by [reset()] resolves *)

(** ** Field updates *)

Definition set_concurrency (v : Z) (m : machine) : machine :=
  {| concurrency := v; _tasksData := _tasksData m; _deferred := _deferred m;
     _pauseDeferred := _pauseDeferred m; fulfilled := fulfilled m;
     rejected := rejected m; pending := pending m; total := total m;
     endless := endless m; retries := retries m; _index := _index m;
     _currentConcurrency := _currentConcurrency m; onProgress := onProgress m;
     inflight := inflight m; resetsWaiting := resetsWaiting m;
     resetsReady := resetsReady m |}.

Definition set_tasksData (v : list T) (m : machine) : machine :=
  {| concurrency := concurrency m; _tasksData := v; _deferred := _deferred m;
     _pauseDeferred := _pauseDeferred m; fulfilled := fulfilled m;
     rejected := rejected m; pending := pending m; total := total m;
     endless := endless m; retries := retries m; _index := _index m;
     _currentConcurrency := _currentConcurrency m; onProgress := onProgress m;
     inflight := inflight m; resetsWaiting := resetsWaiting m;
     resetsReady := resetsReady m |}.

Definition set_deferred (v : option dstate) (m : machine) : machine :=
  {| concurrency := concurrency m; _tasksData := _tasksData m; _deferred := v;
     _pauseDeferred := _pauseDeferred m; fulfilled := fulfilled m;
     rejected := rejected m; pending := pending m; total := total m;
     endless := endless m; retries := retries m; _index := _index m;
     _currentConcurrency := _currentConcurrency m; onProgress := onProgress m;
     inflight := inflight m; resetsWaiting := resetsWaiting m;
     resetsReady := resetsReady m |}.

Definition set_pauseDeferred (v : option pstate) (m : machine) : machine :=
  {| concurrency := concurrency m; _tasksData := _tasksData m;
     _deferred := _deferred m; _pauseDeferred := v; fulfilled := fulfilled m;
     rejected := rejected m; pending := pending m; total := total m;
     endless := endless m; retries := retries m; _index := _index m;
     _currentConcurrency := _currentConcurrency m; onProgress := onProgress m;
     inflight := inflight m; resetsWaiting := resetsWaiting m;
     resetsReady := resetsReady m |}.

(** [fulfilled], [rejected], [pending], [total] at once. *)
Definition set_counters (f r p t : Z) (m : machine) : machine :=
  {| concurrency := concurrency m; _tasksData := _tasksData m;
     _deferred := _deferred m; _pauseDeferred := _pauseDeferred m;
     fulfilled := f; rejected := r; pending := p; total := t;
     endless := endless m; retries := retries m; _index := _index m;
     _currentConcurrency := _currentConcurrency m; onProgress := onProgress m;
     inflight := inflight m; resetsWaiting := resetsWaiting m;
     resetsReady := resetsReady m |}.

Definition set_endless (v : bool) (m : machine) : machine :=
  {| concurrency := concurrency m; _tasksData := _tasksData m;
     _deferred := _deferred m; _pauseDeferred := _pauseDeferred m;
     fulfilled := fulfilled m; rejected := rejected m; pending := pending m;
     total := total m; endless := v; retries := retries m; _index := _index m;
     _currentConcurrency := _currentConcurrency m; onProgress := onProgress m;
     inflight := inflight m; resetsWaiting := resetsWaiting m;
     resetsReady := resetsReady m |}.

Definition set_retries (v : limit) (m : machine) : machine :=
  {| concurrency := concurrency m; _tasksData := _tasksData m;
     _deferred := _deferred m; _pauseDeferred := _pauseDeferred m;
     fulfilled := fulfilled m; rejected := rejected m; pending := pending m;
     total := total m; endless := endless m; retries := v; _index := _index m;
     _currentConcurrency := _currentConcurrency m; onProgress := onProgress m;
     inflight := inflight m; resetsWaiting := resetsWaiting m;
     resetsReady := resetsReady m |}.

Definition set_index (v : Z) (m : machine) : machine :=
  {| concurrency := concurrency m; _tasksData := _tasksData m;
     _deferred := _deferred m; _pauseDeferred := _pauseDeferred m;
     fulfilled := fulfilled m; rejected := rejected m; pending := pending m;
     total := total m; endless := endless m; retries := retries m; _index := v;
     _currentConcurrency := _currentConcurrency m; onProgress := onProgress m;
     inflight := inflight m; resetsWaiting := resetsWaiting m;
     resetsReady := resetsReady m |}.

Definition set_currentConcurrency (v : Z) (m : machine) : machine :=
  {| concurrency := concurrency m; _tasksData := _tasksData m;
     _deferred := _deferred m; _pauseDeferred := _pauseDeferred m;
     fulfilled := fulfilled m; rejected := rejected m; pending := pending m;
     total := total m; endless := endless m; retries := retries m;
     _index := _index m; _currentConcurrency := v; onProgress := onProgress m;
     inflight := inflight m; resetsWaiting := resetsWaiting m;
     resetsReady := resetsReady m |}.

Definition set_onProgress (v : option observer) (m : machine) : machine :=
  {| concurrency := concurrency m; _tasksData := _tasksData m;
     _deferred := _deferred m; _pauseDeferred := _pauseDeferred m;
     fulfilled := fulfilled m; rejected := rejected m; pending := pending m;
     total := total m; endless := endless m; retries := retries m;
     _index := _index m; _currentConcurrency := _currentConcurrency m;
     onProgress := v; inflight := inflight m; resetsWaiting := resetsWaiting m;
     resetsReady := resetsReady m |}.

Definition set_inflight (v : list task) (m : machine) : machine :=
  {| concurrency := concurrency m; _tasksData := _tasksData m;
     _deferred := _deferred m; _pauseDeferred := _pauseDeferred m;
     fulfilled := fulfilled m; rejected := rejected m; pending := pending m;
     total := total m; endless := endless m; retries := retries m;
     _index := _index m; _currentConcurrency := _currentConcurrency m;
     onProgress := onProgress m; inflight := v;
     resetsWaiting := resetsWaiting m; resetsReady := resetsReady m |}.

Definition set_resets (w r : nat) (m : machine) : machine :=
  {| concurrency := concurrency m; _tasksData := _tasksData m;
     _deferred := _deferred m; _pauseDeferred := _pauseDeferred m;
     fulfilled := fulfilled m; rejected := rejected m; pending := pending m;
     total := total m; endless := endless m; retries := retries m;
     _index := _index m; _currentConcurrency := _currentConcurrency m;
     onProgress := onProgress m; inflight := inflight m;
     resetsWaiting := w; resetsReady := r |}.

(** ** The monad: state, emitted outputs, JS exceptions *)

Definition M (A : Type) := machine -> (exn + A) * machine * list out.

Definition ret {A} (a : A) : M A := fun m => (inr a, m, []).

Definition bind {A B} (x : M A) (k : A -> M B) : M B := fun m =>
  match x m with
  | (inl e, m1, o1) => (inl e, m1, o1)
  | (inr a, m1, o1) => match k a m1 with (r, m2, o2) => (r, m2, o1 ++ o2) end
  end.

Definition get : M machine := fun m => (inr m, m, []).
Definition modify (f : machine -> machine) : M unit := fun m => (inr tt, f m, []).
Definition tell (o : list out) : M unit := fun m => (inr tt, m, o).
Definition throw {A} (e : exn) : M A := fun m => (inl e, m, []).

(** [try { x } catch (e) { h(e) }] *)
Definition try_catch (x : M unit) (h : exn -> M unit) : M unit := fun m =>
  match x m with
  | (inl e, m1, o1) => match h e m1 with (r, m2, o2) => (r, m2, o1 ++ o2) end
  | r => r
  end.

Notation "x <- c ;; k" := (bind c (fun x => k))
  (at level 61, c at next level, right associativity).
Notation "c ;; k" := (bind c (fun _ => k)) (at level 61, right associativity).

(** ** List helpers for the in-flight chains *)

Fixpoint replace_nth (k : nat) (x : task) (l : list task) : list task :=
  match l, k with
  | [], _ => []
  | _ :: l', O => x :: l'
  | y :: l', S k' => y :: replace_nth k' x l'
  end.

Fixpoint remove_nth (k : nat) (l : list task) : list task :=
  match l, k with
  | [], _ => []
  | _ :: l', O => l'
  | y :: l', S k' => y :: remove_nth k' l'
  end.

(** ** The methods of [Pool<T>] *)

(** [_deferred && !_deferred.promise.isPending()] *)
Definition accomplished (m : machine) : bool :=
  match _deferred m with
  | Some DPending | None => false
  | Some _ => true
  end.

(** [_process(data, index)]: builds the [Q.retry] chain with
    [limit: this.retries]; the processor itself is invoked asynchronously
    (by [Q.invoke]), see [EInvoke]. *)
Definition _process (data : T) (index : Z) : M unit :=
  m <- get;;
  modify (set_inflight (inflight m ++
    [{| t_data := data; t_index := index; t_left := retries m;
        t_running := false |}]));;
  tell [OAdmit data index].

(** The [while] loop of [_start].  [fuel] is the backlog length on entry:
    every iteration shifts one item, so the JS loop never runs longer. *)
Fixpoint _start_loop (fuel : nat) : M unit :=
  match fuel with
  | O => ret tt
  | S fuel' =>
    m <- get;;
    if (_currentConcurrency m <? concurrency m)%Z then
      match _tasksData m with
      | [] => ret tt
      | data :: rest =>
        modify (fun m => set_currentConcurrency (_currentConcurrency m + 1) m);;
        modify (set_tasksData rest);;
        m <- get;;
        modify (set_index (_index m + 1));;
        _process data (_index m);;
        _start_loop fuel'
      end
    else ret tt
  end.

(** [deferred.resolve(v)]: only a pending deferred changes. *)
Definition resolve_deferred (r : IResult) (d : dstate) : dstate :=
  match d with DPending => DResolved r | _ => d end.

Definition result_of (m : machine) : IResult :=
  {| r_total := total m; r_fulfilled := fulfilled m; r_rejected := rejected m |}.

(** [_start()] *)
Definition _start : M unit :=
  m <- get;;
  _start_loop (List.length (_tasksData m));;
  m <- get;;
  if negb (endless m) && (_currentConcurrency m =? 0) then
    match _deferred m with
    | None => throw ExnType
    | Some d => modify (set_deferred (Some (resolve_deferred (result_of m) d)))
    end
  else ret tt.

Definition snapshot (m : machine) (index : Z) (success : bool)
    (e : option err) (r : option limit) : IProgress :=
  {| p_success := success; p_error := e; p_retries := r; p_index := index;
     p_fulfilled := fulfilled m; p_rejected := rejected m;
     p_pending := pending m; p_total := total m |}.

(** [_notifyProgress(index, success, err, retries)] *)
Definition _notifyProgress (index : Z) (success : bool) (e : option err)
    (r : option limit) : M unit :=
  m <- get;;
  match onProgress m with
  | None => ret tt
  | Some f =>
    let p := snapshot m index success e r in
    match f p with
    | None => tell [OProgress p None]
    | Some x => tell [OProgress p (Some x)];; throw (ExnObserver x)
    end
  end.

(** [_pauseDeferred.resolve(null)]: the [reset] continuations waiting on
    the pause promise become ready to run. *)
Definition resolve_pause : M unit :=
  modify (fun m =>
    match _pauseDeferred m with
    | Some PPending =>
      set_resets 0 (resetsReady m + resetsWaiting m)
        (set_pauseDeferred (Some PResolved) m)
    | _ => m
    end).

(** [_next()] *)
Definition _next : M unit :=
  modify (fun m => set_currentConcurrency (_currentConcurrency m - 1) m);;
  m <- get;;
  match _pauseDeferred m with
  | Some _ => if _currentConcurrency m =? 0 then resolve_pause else ret tt
  | None => _start
  end.

Definition incr_fulfilled (m : machine) : machine :=
  set_counters (fulfilled m + 1) (rejected m) (pending m) (total m) m.
Definition incr_rejected (m : machine) : machine :=
  set_counters (fulfilled m) (rejected m + 1) (pending m) (total m) m.
Definition decr_pending (m : machine) : machine :=
  set_counters (fulfilled m) (rejected m) (pending m - 1) (total m) m.

(** The [.then] handler of [_process]: the retry chain fulfilled. *)
Definition on_fulfilled (index : Z) : M unit :=
  modify incr_fulfilled;;
  modify decr_pending;;
  _notifyProgress index true None None;;
  _next.

(** The [onFail] callback given to [Q.retry] in [_process]. *)
Definition on_fail (index : Z) (reason : err) (r : limit) : M unit :=
  if limit_truthy r then _notifyProgress index false (Some reason) (Some r)
  else
    modify incr_rejected;;
    modify decr_pending;;
    _notifyProgress index false (Some reason) (Some r);;
    _next.

(** [add(tasksData)] (a single item is passed as a one-element array). *)
Definition add (tasksData : list T) : M unit :=
  m <- get;;
  if accomplished m then
    tell [OWarn "all the tasks have been accomplished, reset the pool before adding new tasks."%string]
  else
    modify (fun m => set_counters (fulfilled m) (rejected m)
      (pending m) (total m + Z.of_nat (List.length tasksData)) m);;
    modify (fun m => set_counters (fulfilled m) (rejected m)
      (pending m + Z.of_nat (List.length tasksData)) (total m) m);;
    modify (fun m => set_tasksData (app (_tasksData m) tasksData) m);;
    tell [OEnqueue tasksData];;
    _start.

(** [start(onProgress)]; the returned value is [null] or the promise. *)
Definition start (obs : option observer) : M unit :=
  m <- get;;
  match _deferred m with
  | Some _ =>
    match _pauseDeferred m with
    | Some _ => tell [OWarn "tasks pool has already been started, use resume to continue the tasks."%string]
    | None => tell [OWarn "tasks pool has already been started, reset it before start it again."%string]
    end
  | None =>
    modify (set_onProgress obs);;
    modify (set_deferred (Some DPending));;
    _start
  end;;
  m <- get;;
  tell [OStartReturn (negb (endless m))].

(** [pause()] *)
Definition pause : M unit :=
  m <- get;;
  match _pauseDeferred m with
  | Some PResolved => tell [OWarn "tasks have already been paused."%string]
  | Some PPending => tell [OWarn "tasks are already been pausing."%string]
  | None =>
    modify (set_pauseDeferred (Some PPending));;
    m <- get;;
    if _currentConcurrency m =? 0 then resolve_pause else ret tt
  end.

(** [resume()]: dropping [_pauseDeferred] also drops the [reset]
    continuations waiting on it, whose promise is never resolved. *)
Definition resume : M unit :=
  m <- get;;
  match _pauseDeferred m with
  | None => tell [OWarn "tasks are not paused."%string]
  | Some _ =>
    modify (set_pauseDeferred None);;
    modify (fun m => set_resets 0 (resetsReady m) m);;
    _start
  end.

(** [reset()]: [this.pause().then(...)]. *)
Definition reset : M unit :=
  pause;;
  m <- get;;
  match _pauseDeferred m with
  | Some PResolved => modify (set_resets (resetsWaiting m) (S (resetsReady m)))
  | _ => modify (set_resets (S (resetsWaiting m)) (resetsReady m))
  end.

(** The callback that [reset()] passes to [.then]. *)
Definition reset_then : M unit :=
  modify (set_counters 0 0 0 0);;
  modify (set_index 0);;
  modify (set_tasksData []);;
  modify (set_deferred None);;
  modify (set_pauseDeferred None);;
  modify (set_onProgress None);;
  tell [OResetDone].

(** ** Events *)

Inductive event :=
| EAdd (items : list T)
| EStart (obs : option observer)
| EPause
| EResume
| EReset
| EResetThen                       (* a ready [reset] continuation runs *)
| EInvoke (k : nat)                (* [Q.invoke] calls the processor of the [k]-th chain *)
| ESettle (k : nat) (o : outcome)  (* the processor's promise of the [k]-th chain settles *)
| ESetConcurrency (c : Z)          (* [pool.concurrency = c] *)
| ESetRetries (r : limit)          (* [pool.retries = r] *)
| ESetEndless (b : bool).          (* [pool.endless = b] *)

Definition catch_to (wrap : exn -> out) (x : M unit) : M unit :=
  try_catch x (fun e => tell [wrap e]).

(** One step of the world.  A failed attempt with retries left calls
    [onFail] and then [q-retry] schedules the next attempt with one retry
    less; an exception thrown by [onFail] rejects [q-retry]'s promise
    instead, which ends the chain (nothing handles that rejection). *)
Definition dispatch (e : event) : M unit :=
  match e with
  | EAdd items => catch_to OThrown (add items)
  | EStart obs => catch_to OThrown (start obs)
  | EPause => catch_to OThrown pause
  | EResume => catch_to OThrown resume
  | EReset => catch_to OThrown reset
  | EResetThen =>
    m <- get;;
    match resetsReady m with
    | O => ret tt
    | S n =>
      (* the callback nulls [_pauseDeferred]: continuations still waiting
         on that (pending) pause promise are never run *)
      modify (set_resets 0 n);;
      catch_to OUnhandled reset_then
    end
  | EInvoke k =>
    m <- get;;
    match nth_error (inflight m) k with
    | Some t =>
      if t_running t then ret tt
      else
        modify (set_inflight (replace_nth k
          {| t_data := t_data t; t_index := t_index t; t_left := t_left t;
             t_running := true |} (inflight m)));;
        tell [OInvoke (t_data t) (t_index t)]
    | None => ret tt
    end
  | ESettle k o =>
    m <- get;;
    match nth_error (inflight m) k with
    | Some t =>
      if t_running t then
        match o with
        | Fulfilled =>
          modify (set_inflight (remove_nth k (inflight m)));;
          catch_to OUnhandled (on_fulfilled (t_index t))
        | Rejected reason =>
          if limit_truthy (t_left t) then
            modify (set_inflight (replace_nth k
              {| t_data := t_data t; t_index := t_index t;
                 t_left := limit_pred (t_left t); t_running := false |}
              (inflight m)));;
            try_catch (on_fail (t_index t) reason (t_left t))
              (fun x => modify (fun m => set_inflight (remove_nth k (inflight m)) m);;
                        tell [OUnhandled x])
          else
            modify (set_inflight (remove_nth k (inflight m)));;
            catch_to OUnhandled (on_fail (t_index t) reason (t_left t))
        end
      else ret tt
    | None => ret tt
    end
  | ESetConcurrency c => modify (set_concurrency c)
  | ESetRetries r => modify (set_retries r)
  | ESetEndless b => modify (set_endless b)
  end.

Definition step (m : machine) (e : event) : machine * list out :=
  match dispatch e m with (_, m', o) => (m', o) end.

Fixpoint run (m : machine) (es : list event) : machine * list out :=
  match es with
  | [] => (m, [])
  | e :: es' =>
    let (m1, o1) := step m e in
    let (m2, o2) := run m1 es' in
    (m2, o1 ++ o2)
  end.

(** [new Pool(processor, concurrency, endless)]: the field initialisers. *)
Definition init (c : Z) (e : bool) : machine :=
  {| concurrency := c; _tasksData := []; _deferred := None;
     _pauseDeferred := None; fulfilled := 0; rejected := 0; pending := 0;
     total := 0; endless := e; retries := Fin 0; _index := 0;
     _currentConcurrency := 0; onProgress := None; inflight := [];
     resetsWaiting := 0; resetsReady := 0 |}.

End Pool.

Arguments machine : clear implicits.
Arguments task : clear implicits.
Arguments out : clear implicits.
Arguments event : clear implicits.

(** ** Closed forms used by the proofs *)

Section ClosedForms.
Context {T : Type}.

Definition admit_task (r : limit) (d : T) (i : Z) : task T :=
  {| t_data := d; t_index := i; t_left := r; t_running := false |}.

(** The chains that [_process] creates for the items [l] admitted from
    index [i] on. *)
Fixpoint admitted (r : limit) (i : Z) (l : list T) : list (task T) :=
  match l with
  | [] => []
  | d :: l' => admit_task r d i :: admitted r (i + 1) l'
  end.

Fixpoint admit_outs (i : Z) (l : list T) : list (out T) :=
  match l with
  | [] => []
  | d :: l' => OAdmit d i :: admit_outs (i + 1) l'
  end.

(** Number of items one admission sweep admits. *)
Definition sweep_count (m : machine T) : nat :=
  Nat.min (List.length (_tasksData m))
    (Z.to_nat (concurrency m - _currentConcurrency m)).

(** The pool after [k] iterations of the admission loop. *)
Definition admit_n (k : nat) (m : machine T) : machine T :=
  {| concurrency := concurrency m; _tasksData := skipn k (_tasksData m);
     _deferred := _deferred m; _pauseDeferred := _pauseDeferred m;
     fulfilled := fulfilled m; rejected := rejected m; pending := pending m;
     total := total m; endless := endless m; retries := retries m;
     _index := _index m + Z.of_nat k;
     _currentConcurrency := _currentConcurrency m + Z.of_nat k;
     onProgress := onProgress m;
     inflight := inflight m ++ admitted (retries m) (_index m)
                   (firstn k (_tasksData m));
     resetsWaiting := resetsWaiting m; resetsReady := resetsReady m |}.

Definition prepend (o : list (out T)) (r : (exn + unit) * machine T * list (out T)) :=
  match r with (x, m, o') => (x, m, o ++ o') end.

(** The result of [_start()] in closed form. *)
Definition start_res (m : machine T) : (exn + unit) * machine T * list (out T) :=
  let k := sweep_count m in
  let m1 := admit_n k m in
  let o := admit_outs (_index m) (firstn k (_tasksData m)) in
  if negb (endless m) && (_currentConcurrency m1 =? 0) then
    match _deferred m with
    | None => (inl ExnType, m1, o)
    | Some d => (inr tt, set_deferred (Some (resolve_deferred (result_of m1) d)) m1, o)
    end
  else (inr tt, m1, o).

(** Facts every reachable pool satisfies. *)
Definition Inv (m : machine T) : Prop :=
  total m = fulfilled m + rejected m + pending m /\
  Z.of_nat (List.length (inflight m)) <= _currentConcurrency m /\
  (_pauseDeferred m = Some PPending -> _currentConcurrency m <> 0) /\
  (resetsWaiting m <> 0%nat -> _pauseDeferred m = Some PPending) /\
  (forall e, _deferred m <> Some (DRejected e)).

(** A progress snapshot satisfies the counter equation. *)
Definition snap_ok (o : out T) : Prop :=
  match o with
  | OProgress p _ => p_total p = p_fulfilled p + p_rejected p + p_pending p
  | _ => True
  end.

Definition resolved (m : machine T) : bool :=
  match _deferred m with Some (DResolved _) => true | _ => false end.

(** The endless-mode invariant: [endless] stays set and the completion
    deferred is never resolved. *)
Definition endless_ok (m : machine T) : Prop :=
  endless m = true /\ (forall r, _deferred m <> Some (DResolved r)).


Definition admissions (o : list (out T)) : list (T * Z) :=
  flat_map (fun x => match x with OAdmit d i => [(d, i)] | _ => [] end) o.

(** No observer, or one that never throws. *)
Definition silent (m : machine T) : Prop :=
  forall f, onProgress m = Some f -> forall p, f p = None.


(** The items enqueued by [add] in an output trace. *)
Definition enqueued (o : list (out T)) : list T :=
  flat_map (fun x => match x with OEnqueue l => l | _ => [] end) o.

(** The items [l] paired with consecutive indices from [i] on. *)
Fixpoint indexed (i : Z) (l : list T) : list (T * Z) :=
  match l with
  | [] => []
  | d :: l' => (d, i) :: indexed (i + 1) l'
  end.

(** The bookkeeping of indices: [adm] the (item, index) pairs handed to
    [_process] so far, [enq] the items enqueued so far. *)
Definition index_ok (m : machine T) (adm : list (T * Z)) (enq : list T) : Prop :=
  enq = map fst adm ++ _tasksData m /\
  map snd adm = map Z.of_nat (seq 0 (List.length adm)) /\
  _index m = Z.of_nat (List.length adm) /\
  (forall t, In t (inflight m) -> In (t_data t, t_index t) adm).

End ClosedForms.

(** ** The constructor *)

Section Ctor.
Context {T : Type}.

(** [new Pool(processor, concurrency, endless, tasksData)]: the field
    initialisers, then [if (tasksData) this.add(tasksData)]; an array, even
    an empty one, is truthy ([Some]), an omitted argument is [None].  The
    result is that of the [add] call, whose exception escapes the
    constructor. *)
Definition new_pool (c : Z) (e : bool) (tasksData : option (list T))
    : (exn + unit) * machine T * list (out T) :=
  match tasksData with
  | Some l => add l (init c e)
  | None => (inr tt, init c e, [])
  end.
End Ctor.

(** ** The compiled [pool.js] (lines 297-471 of [promise-pool.ts])

    An earlier build of the pool, kept in the same file as plain
    JavaScript.  Its methods are those of the TypeScript class, except:
    [_process(data, index, retries)] sends the processor call with [Q.send]
    and handles the result with [.then(A).fail(B)] instead of [Q.retry]; a
    processor promise resolving to [false] counts as a failure; a failure
    with retries left calls [_process] again with [retries - 1]; and the
    callback of [reset] does not clear [pending]. *)
Module PoolJs.

(** What [_process] looks at in the value a processor's promise resolves
    to: [success === false] or not. *)
Inductive value := VFalse | VOther.

(** How a processor's promise settles. *)
Inductive settlement := Resolved (v : value) | Rejected (reason : err).

(** The [err] that reaches the [.fail] handler: the processor promise's
    rejection reason, or an exception thrown by the [.then] handler. *)
Inductive failure := FReason (e : err) | FThrown (x : exn).

(** The progress object built by [_notifyProgress]; [error] is [null]
    where the code passes [null], [retries] is always the number passed. *)
Record IProgress := {
  p_index : Z;
  p_success : bool;
  p_error : option failure;
  p_retries : limit;
  p_fulfilled : Z;
  p_rejected : Z;
  p_pending : Z;
  p_total : Z }.

(** An [onProgress] callback: it returns normally ([None]) or throws. *)
Definition observer := IProgress -> option err.

Section Pool.

Context {T : Type}.

(** Where the promise chain built by one [_process] call stands:
    [Q.send] has not yet called the processor ([Sent]), the processor's
    promise is pending ([Running]), or the [.then] promise has rejected and
    the [.fail] handler is due ([Failing]). *)
Inductive phase := Sent | Running | Failing (f : failure).

(** One call [_process(data, index, retries)] and its chain. *)
Record chain := {
  c_data : T;
  c_index : Z;
  c_retries : limit;
  c_phase : phase }.

Record machine := {
  concurrency : Z;
  tasksData : list T;
  _deferred : option dstate;          (* [undefined] / [null] is [None] *)
  _pauseDeferred : option pstate;
  fulfilled : Z;
  rejected : Z;
  pending : Z;
  total : Z;
  endless : bool;
  retries : limit;
  _index : Z;
  _currentConcurrency : Z;
  onProgress : option observer;
  inflight : list chain;              (* chains built by [_process] *)
  resetsWaiting : nat;                (* [reset] continuations on a pending pause promise *)
  resetsReady : nat }.                (* [reset] continuations whose pause promise resolved *)

(** Observable effects of a step. *)
Inductive out :=
| OWarn (msg : string)                  (* console.warn *)
| OEnqueue (items : list T)             (* items appended to [tasksData] by [add] *)
| OProcess (data : T) (index : Z) (retries : limit)  (* [_process(data, index, retries)] called *)
| OInvoke (data : T) (index : Z)        (* the processor called with [(data, index)] *)
| OProgress (p : IProgress) (thrown : option err)  (* [onProgress(p)] called *)
| OStartReturn (promise : bool)         (* [start()] returned a promise (or [null]) *)
| OThrown (e : exn)                     (* exception escaping a public call *)
| OUnhandled (e : exn)                  (* exception thrown inside a [.fail] handler *)
| OResetDone.                           (* the promise returned by [reset()] resolves *)

(** *** Field updates *)

Definition set_concurrency (v : Z) (m : machine) : machine :=
  {| concurrency := v; tasksData := tasksData m; _deferred := _deferred m;
     _pauseDeferred := _pauseDeferred m; fulfilled := fulfilled m;
     rejected := rejected m; pending := pending m; total := total m;
     endless := endless m; retries := retries m; _index := _index m;
     _currentConcurrency := _currentConcurrency m;
     onProgress := onProgress m; inflight := inflight m;
     resetsWaiting := resetsWaiting m; resetsReady := resetsReady m |}.

Definition set_tasksData (v : list T) (m : machine) : machine :=
  {| concurrency := concurrency m; tasksData := v;
     _deferred := _deferred m; _pauseDeferred := _pauseDeferred m;
     fulfilled := fulfilled m; rejected := rejected m;
     pending := pending m; total := total m; endless := endless m;
     retries := retries m; _index := _index m;
     _currentConcurrency := _currentConcurrency m;
     onProgress := onProgress m; inflight := inflight m;
     resetsWaiting := resetsWaiting m; resetsReady := resetsReady m |}.

Definition set_deferred (v : option dstate) (m : machine) : machine :=
  {| concurrency := concurrency m; tasksData := tasksData m;
     _deferred := v; _pauseDeferred := _pauseDeferred m;
     fulfilled := fulfilled m; rejected := rejected m;
     pending := pending m; total := total m; endless := endless m;
     retries := retries m; _index := _index m;
     _currentConcurrency := _currentConcurrency m;
     onProgress := onProgress m; inflight := inflight m;
     resetsWaiting := resetsWaiting m; resetsReady := resetsReady m |}.

Definition set_pauseDeferred (v : option pstate) (m : machine) : machine :=
  {| concurrency := concurrency m; tasksData := tasksData m;
     _deferred := _deferred m; _pauseDeferred := v;
     fulfilled := fulfilled m; rejected := rejected m;
     pending := pending m; total := total m; endless := endless m;
     retries := retries m; _index := _index m;
     _currentConcurrency := _currentConcurrency m;
     onProgress := onProgress m; inflight := inflight m;
     resetsWaiting := resetsWaiting m; resetsReady := resetsReady m |}.

(** [fulfilled], [rejected], [pending], [total] at once. *)
Definition set_counters (f r p t : Z) (m : machine) : machine :=
  {| concurrency := concurrency m; tasksData := tasksData m;
     _deferred := _deferred m; _pauseDeferred := _pauseDeferred m;
     fulfilled := f; rejected := r; pending := p; total := t;
     endless := endless m; retries := retries m; _index := _index m;
     _currentConcurrency := _currentConcurrency m;
     onProgress := onProgress m; inflight := inflight m;
     resetsWaiting := resetsWaiting m; resetsReady := resetsReady m |}.

Definition set_endless (v : bool) (m : machine) : machine :=
  {| concurrency := concurrency m; tasksData := tasksData m;
     _deferred := _deferred m; _pauseDeferred := _pauseDeferred m;
     fulfilled := fulfilled m; rejected := rejected m;
     pending := pending m; total := total m; endless := v;
     retries := retries m; _index := _index m;
     _currentConcurrency := _currentConcurrency m;
     onProgress := onProgress m; inflight := inflight m;
     resetsWaiting := resetsWaiting m; resetsReady := resetsReady m |}.

Definition set_retries (v : limit) (m : machine) : machine :=
  {| concurrency := concurrency m; tasksData := tasksData m;
     _deferred := _deferred m; _pauseDeferred := _pauseDeferred m;
     fulfilled := fulfilled m; rejected := rejected m;
     pending := pending m; total := total m; endless := endless m;
     retries := v; _index := _index m;
     _currentConcurrency := _currentConcurrency m;
     onProgress := onProgress m; inflight := inflight m;
     resetsWaiting := resetsWaiting m; resetsReady := resetsReady m |}.

Definition set_index (v : Z) (m : machine) : machine :=
  {| concurrency := concurrency m; tasksData := tasksData m;
     _deferred := _deferred m; _pauseDeferred := _pauseDeferred m;
     fulfilled := fulfilled m; rejected := rejected m;
     pending := pending m; total := total m; endless := endless m;
     retries := retries m; _index := v;
     _currentConcurrency := _currentConcurrency m;
     onProgress := onProgress m; inflight := inflight m;
     resetsWaiting := resetsWaiting m; resetsReady := resetsReady m |}.

Definition set_currentConcurrency (v : Z) (m : machine) : machine :=
  {| concurrency := concurrency m; tasksData := tasksData m;
     _deferred := _deferred m; _pauseDeferred := _pauseDeferred m;
     fulfilled := fulfilled m; rejected := rejected m;
     pending := pending m; total := total m; endless := endless m;
     retries := retries m; _index := _index m; _currentConcurrency := v;
     onProgress := onProgress m; inflight := inflight m;
     resetsWaiting := resetsWaiting m; resetsReady := resetsReady m |}.

Definition set_onProgress (v : option observer) (m : machine) : machine :=
  {| concurrency := concurrency m; tasksData := tasksData m;
     _deferred := _deferred m; _pauseDeferred := _pauseDeferred m;
     fulfilled := fulfilled m; rejected := rejected m;
     pending := pending m; total := total m; endless := endless m;
     retries := retries m; _index := _index m;
     _currentConcurrency := _currentConcurrency m; onProgress := v;
     inflight := inflight m; resetsWaiting := resetsWaiting m;
     resetsReady := resetsReady m |}.

Definition set_inflight (v : list chain) (m : machine) : machine :=
  {| concurrency := concurrency m; tasksData := tasksData m;
     _deferred := _deferred m; _pauseDeferred := _pauseDeferred m;
     fulfilled := fulfilled m; rejected := rejected m;
     pending := pending m; total := total m; endless := endless m;
     retries := retries m; _index := _index m;
     _currentConcurrency := _currentConcurrency m;
     onProgress := onProgress m; inflight := v;
     resetsWaiting := resetsWaiting m; resetsReady := resetsReady m |}.

Definition set_resets (w r : nat) (m : machine) : machine :=
  {| concurrency := concurrency m; tasksData := tasksData m;
     _deferred := _deferred m; _pauseDeferred := _pauseDeferred m;
     fulfilled := fulfilled m; rejected := rejected m;
     pending := pending m; total := total m; endless := endless m;
     retries := retries m; _index := _index m;
     _currentConcurrency := _currentConcurrency m;
     onProgress := onProgress m; inflight := inflight m;
     resetsWaiting := w; resetsReady := r |}.

(** *** The monad: state, emitted outputs, JS exceptions *)

Definition M (A : Type) := machine -> (exn + A) * machine * list out.

Definition ret {A} (a : A) : M A := fun m => (inr a, m, []).

Definition bind {A B} (x : M A) (k : A -> M B) : M B := fun m =>
  match x m with
  | (inl e, m1, o1) => (inl e, m1, o1)
  | (inr a, m1, o1) => match k a m1 with (r, m2, o2) => (r, m2, o1 ++ o2) end
  end.

Definition get : M machine := fun m => (inr m, m, []).
Definition modify (f : machine -> machine) : M unit := fun m => (inr tt, f m, []).
Definition tell (o : list out) : M unit := fun m => (inr tt, m, o).
Definition throw {A} (e : exn) : M A := fun m => (inl e, m, []).

(** [try { x } catch (e) { h(e) }] *)
Definition try_catch (x : M unit) (h : exn -> M unit) : M unit := fun m =>
  match x m with
  | (inl e, m1, o1) => match h e m1 with (r, m2, o2) => (r, m2, o1 ++ o2) end
  | r => r
  end.

Local Notation "x <- c ;; k" := (bind c (fun x => k))
  (at level 61, c at next level, right associativity).
Local Notation "c ;; k" := (bind c (fun _ => k)) (at level 61, right associativity).

Fixpoint replace_nth (k : nat) (x : chain) (l : list chain) : list chain :=
  match l, k with
  | [], _ => []
  | _ :: l', O => x :: l'
  | y :: l', S k' => y :: replace_nth k' x l'
  end.

Fixpoint remove_nth (k : nat) (l : list chain) : list chain :=
  match l, k with
  | [], _ => []
  | _ :: l', O => l'
  | y :: l', S k' => y :: remove_nth k' l'
  end.

(** *** The methods of [Pool] *)

(** [_deferred && !_deferred.promise.isPending()] *)
Definition accomplished (m : machine) : bool :=
  match _deferred m with
  | Some DPending | None => false
  | Some _ => true
  end.

(** [_process(data, index, retries)]: [Q.send] calls the processor
    asynchronously, see [EInvoke]. *)
Definition _process (data : T) (index : Z) (r : limit) : M unit :=
  m <- get;;
  modify (set_inflight (inflight m ++
    [{| c_data := data; c_index := index; c_retries := r; c_phase := Sent |}]));;
  tell [OProcess data index r].

(** The [while] loop of [_start]; [fuel] is the length of [tasksData]
    on entry. *)
Fixpoint _start_loop (fuel : nat) : M unit :=
  match fuel with
  | O => ret tt
  | S fuel' =>
    m <- get;;
    if (_currentConcurrency m <? concurrency m)%Z then
      match tasksData m with
      | [] => ret tt
      | data :: rest =>
        modify (fun m => set_currentConcurrency (_currentConcurrency m + 1) m);;
        modify (set_tasksData rest);;
        m <- get;;
        modify (set_index (_index m + 1));;
        _process data (_index m) (retries m);;
        _start_loop fuel'
      end
    else ret tt
  end.

Definition result_of (m : machine) : IResult :=
  {| r_total := total m; r_fulfilled := fulfilled m; r_rejected := rejected m |}.

(** [_start()] *)
Definition _start : M unit :=
  m <- get;;
  _start_loop (List.length (tasksData m));;
  m <- get;;
  if negb (endless m) && (_currentConcurrency m =? 0) then
    match _deferred m with
    | None => throw ExnType
    | Some d => modify (set_deferred (Some (resolve_deferred (result_of m) d)))
    end
  else ret tt.

Definition snapshot (m : machine) (index : Z) (success : bool)
    (e : option failure) (r : limit) : IProgress :=
  {| p_success := success; p_error := e; p_retries := r; p_index := index;
     p_fulfilled := fulfilled m; p_rejected := rejected m;
     p_pending := pending m; p_total := total m |}.

(** [_notifyProgress(index, success, err, retries)] *)
Definition _notifyProgress (index : Z) (success : bool) (e : option failure)
    (r : limit) : M unit :=
  m <- get;;
  match onProgress m with
  | None => ret tt
  | Some f =>
    let p := snapshot m index success e r in
    match f p with
    | None => tell [OProgress p None]
    | Some x => tell [OProgress p (Some x)];; throw (ExnObserver x)
    end
  end.

(** [_pauseDeferred.resolve(null)] *)
Definition resolve_pause : M unit :=
  modify (fun m =>
    match _pauseDeferred m with
    | Some PPending =>
      set_resets 0 (resetsReady m + resetsWaiting m)
        (set_pauseDeferred (Some PResolved) m)
    | _ => m
    end).

(** [_next()] *)
Definition _next : M unit :=
  modify (fun m => set_currentConcurrency (_currentConcurrency m - 1) m);;
  m <- get;;
  match _pauseDeferred m with
  | Some _ => if _currentConcurrency m =? 0 then resolve_pause else ret tt
  | None => _start
  end.

Definition incr_fulfilled (m : machine) : machine :=
  set_counters (fulfilled m + 1) (rejected m) (pending m) (total m) m.
Definition incr_rejected (m : machine) : machine :=
  set_counters (fulfilled m) (rejected m + 1) (pending m) (total m) m.
Definition decr_pending (m : machine) : machine :=
  set_counters (fulfilled m) (rejected m) (pending m - 1) (total m) m.

(** The [.then] handler of [_process], on the value the processor's
    promise resolved to. *)
Definition on_value (data : T) (index : Z) (r : limit) (v : value) : M unit :=
  match v with
  | VFalse =>
    if limit_truthy r then
      _notifyProgress index false None r;;
      _process data index (limit_pred r)
    else
      modify incr_rejected;;
      modify decr_pending;;
      _notifyProgress index false None r;;
      _next
  | VOther =>
    modify incr_fulfilled;;
    modify decr_pending;;
    _notifyProgress index true None r;;
    _next
  end.

(** The [.fail] handler of [_process]. *)
Definition on_failure (data : T) (index : Z) (r : limit) (f : failure) : M unit :=
  if limit_truthy r then
    _notifyProgress index false (Some f) r;;
    _process data index (limit_pred r)
  else
    modify incr_rejected;;
    modify decr_pending;;
    _notifyProgress index false (Some f) r;;
    _next.

(** [add(tasksData)] (a single item is passed as a one-element array). *)
Definition add (items : list T) : M unit :=
  m <- get;;
  if accomplished m then
    tell [OWarn "all the tasks have been accomplished, reset the pool before adding new tasks."%string]
  else
    modify (fun m => set_counters (fulfilled m) (rejected m)
      (pending m) (total m + Z.of_nat (List.length items)) m);;
    modify (fun m => set_counters (fulfilled m) (rejected m)
      (pending m + Z.of_nat (List.length items)) (total m) m);;
    modify (fun m => set_tasksData (app (tasksData m) items) m);;
    tell [OEnqueue items];;
    _start.

(** [start(onProgress)] *)
Definition start (obs : option observer) : M unit :=
  m <- get;;
  match _deferred m with
  | Some _ =>
    match _pauseDeferred m with
    | Some _ => tell [OWarn "tasks pool has already been started, use resume to continue the tasks."%string]
    | None => tell [OWarn "tasks pool has already been started, reset it before start it again."%string]
    end
  | None =>
    modify (set_onProgress obs);;
    modify (set_deferred (Some DPending));;
    _start
  end;;
  m <- get;;
  tell [OStartReturn (negb (endless m))].

(** [pause()] *)
Definition pause : M unit :=
  m <- get;;
  match _pauseDeferred m with
  | Some PResolved => tell [OWarn "tasks have already been paused."%string]
  | Some PPending => tell [OWarn "tasks are already been pausing."%string]
  | None =>
    modify (set_pauseDeferred (Some PPending));;
    m <- get;;
    if _currentConcurrency m =? 0 then resolve_pause else ret tt
  end.

(** [resume()] *)
Definition resume : M unit :=
  m <- get;;
  match _pauseDeferred m with
  | None => tell [OWarn "tasks are not paused."%string]
  | Some _ =>
    modify (set_pauseDeferred None);;
    modify (fun m => set_resets 0 (resetsReady m) m);;
    _start
  end.

(** [reset()]: [this.pause().then(...)]. *)
Definition reset : M unit :=
  pause;;
  m <- get;;
  match _pauseDeferred m with
  | Some PResolved => modify (set_resets (resetsWaiting m) (S (resetsReady m)))
  | _ => modify (set_resets (S (resetsWaiting m)) (resetsReady m))
  end.

(** The callback that [reset()] passes to [.then]: [pending] is not
    cleared. *)
Definition reset_then : M unit :=
  modify (fun m => set_counters 0 0 (pending m) 0 m);;
  modify (set_index 0);;
  modify (set_tasksData []);;
  modify (set_deferred None);;
  modify (set_pauseDeferred None);;
  modify (set_onProgress None);;
  tell [OResetDone].

(** *** Events *)

Inductive event :=
| EAdd (items : list T)
| EStart (obs : option observer)
| EPause
| EResume
| EReset
| EResetThen                       (* a ready [reset] continuation runs *)
| EInvoke (k : nat)                (* [Q.send] calls the processor of the [k]-th chain *)
| ESettle (k : nat) (s : settlement)  (* the processor's promise of the [k]-th chain settles *)
| EFail (k : nat)                  (* the [.fail] handler of the [k]-th chain runs *)
| ESetConcurrency (c : Z)
| ESetRetries (r : limit)
| ESetEndless (b : bool).

Definition catch_to (wrap : exn -> out) (x : M unit) : M unit :=
  try_catch x (fun e => tell [wrap e]).

Definition with_phase (c : chain) (ph : phase) : chain :=
  {| c_data := c_data c; c_index := c_index c; c_retries := c_retries c;
     c_phase := ph |}.

(** One step of the world.  The [.then] handler [A] runs when the
    processor's promise resolves; an exception it throws rejects the
    [.then] promise, and [.fail] ([B]) is due on that chain.  A rejection
    of the processor's promise skips [A] and makes [B] due.  An exception
    thrown by [B] is not handled by anything. *)
Definition dispatch (e : event) : M unit :=
  match e with
  | EAdd items => catch_to OThrown (add items)
  | EStart obs => catch_to OThrown (start obs)
  | EPause => catch_to OThrown pause
  | EResume => catch_to OThrown resume
  | EReset => catch_to OThrown reset
  | EResetThen =>
    m <- get;;
    match resetsReady m with
    | O => ret tt
    | S n => modify (set_resets 0 n);; catch_to OUnhandled reset_then
    end
  | EInvoke k =>
    m <- get;;
    match nth_error (inflight m) k with
    | Some c =>
      match c_phase c with
      | Sent =>
        modify (set_inflight (replace_nth k (with_phase c Running) (inflight m)));;
        tell [OInvoke (c_data c) (c_index c)]
      | _ => ret tt
      end
    | None => ret tt
    end
  | ESettle k s =>
    m <- get;;
    match nth_error (inflight m) k with
    | Some c =>
      match c_phase c with
      | Running =>
        match s with
        | Resolved v =>
          modify (set_inflight (remove_nth k (inflight m)));;
          try_catch (on_value (c_data c) (c_index c) (c_retries c) v)
            (fun x => modify (fun m => set_inflight
                        (inflight m ++ [with_phase c (Failing (FThrown x))]) m))
        | Rejected reason =>
          modify (set_inflight
            (replace_nth k (with_phase c (Failing (FReason reason))) (inflight m)))
        end
      | _ => ret tt
      end
    | None => ret tt
    end
  | EFail k =>
    m <- get;;
    match nth_error (inflight m) k with
    | Some c =>
      match c_phase c with
      | Failing f =>
        modify (set_inflight (remove_nth k (inflight m)));;
        catch_to OUnhandled (on_failure (c_data c) (c_index c) (c_retries c) f)
      | _ => ret tt
      end
    | None => ret tt
    end
  | ESetConcurrency c => modify (set_concurrency c)
  | ESetRetries r => modify (set_retries r)
  | ESetEndless b => modify (set_endless b)
  end.

Definition step (m : machine) (e : event) : machine * list out :=
  match dispatch e m with (_, m', o) => (m', o) end.

Fixpoint run (m : machine) (es : list event) : machine * list out :=
  match es with
  | [] => (m, [])
  | e :: es' =>
    let (m1, o1) := step m e in
    let (m2, o2) := run m1 es' in
    (m2, o1 ++ o2)
  end.

(** [new Pool(processor, concurrency, endless)]: the constructor's
    assignments. *)
Definition init (c : Z) (e : bool) : machine :=
  {| concurrency := c; tasksData := []; _deferred := None;
     _pauseDeferred := None; fulfilled := 0; rejected := 0; pending := 0;
     total := 0; endless := e; retries := Fin 0; _index := 0;
     _currentConcurrency := 0; onProgress := None; inflight := [];
     resetsWaiting := 0; resetsReady := 0 |}.

(** No observer, or one that never throws. *)
Definition silent (m : machine) : Prop :=
  forall f, onProgress m = Some f -> forall p, f p = None.

(** The four counters. *)
Definition counters (m : machine) : Z * Z * Z * Z :=
  (fulfilled m, rejected m, pending m, total m).

(** [x] leaves the counters as they are, whether it returns or throws. *)
Definition keeps {A} (x : M A) : Prop :=
  forall m, counters (snd (fst (x m))) = counters m.

(** The counter equation [total = fulfilled + rejected + pending]. *)
Definition balanced (m : machine) : Prop :=
  total m = fulfilled m + rejected m + pending m.

End Pool.

Arguments machine : clear implicits.
Arguments chain : clear implicits.
Arguments out : clear implicits.
Arguments event : clear implicits.

End PoolJs.

(** Number of progress events delivered. *)
Definition count_progress {T} (o : list (out T)) : nat :=
  List.length (filter (fun x => match x with OProgress _ _ => true | _ => false end) o).

(** ** Sanity checks on small runs *)

Example ex_two_tasks :
  let '(m, o) := run (init (T:=Z) 2 false)
    [EAdd [10; 11]; EStart None; EInvoke 0; EInvoke 1;
     ESettle 0 Fulfilled; ESettle 0 Fulfilled] in
  _deferred m = Some (DResolved {| r_fulfilled := 2; r_rejected := 0; r_total := 2 |}).
Proof. vm_compute. reflexivity. Qed.


(** concurrency 2, five tasks that always succeed. *)
Example ex_five_ok :
  let '(m, o) := run (init (T:=Z) 2 false)
    [EAdd [1;2;3;4;5]; EStart (Some (fun _ => None));
     EInvoke 0; EInvoke 1; ESettle 0 Fulfilled; EInvoke 1; ESettle 0 Fulfilled;
     EInvoke 1; ESettle 1 Fulfilled; EInvoke 1; ESettle 0 Fulfilled;
     ESettle 0 Fulfilled] in
  _deferred m = Some (DResolved {| r_fulfilled := 5; r_rejected := 0; r_total := 5 |})
  /\ count_progress o = 5%nat.
Proof. vm_compute. split; reflexivity. Qed.

(** concurrency 1, retries 2, a task that always fails. *)
Example ex_retry_fail :
  let '(m, o) := run (init (T:=Z) 1 false)
    [ESetRetries (Fin 2); EAdd [7]; EStart (Some (fun _ => None));
     EInvoke 0; ESettle 0 (Rejected 1%nat); EInvoke 0; ESettle 0 (Rejected 1%nat);
     EInvoke 0; ESettle 0 (Rejected 1%nat)] in
  _deferred m = Some (DResolved {| r_fulfilled := 0; r_rejected := 1; r_total := 1 |})
  /\ count_progress o = 3%nat.
Proof. vm_compute. split; reflexivity. Qed.

(** ** Monad and loop lemmas *)

Section Facts.
Context {T : Type}.
Implicit Types (m : machine T).

Lemma bind_ok {A B} (x : M A) (k : A -> M B) m a m1 o1 :
  x m = (inr a, m1, o1) ->
  bind x k m = match k a m1 with (r, m2, o2) => (r, m2, o1 ++ o2) end.
Proof. intros H. unfold bind. rewrite H. reflexivity. Qed.

Lemma bind_err {A B} (x : M A) (k : A -> M B) m e m1 o1 :
  x m = (inl e, m1, o1) -> bind x k m = (inl e, m1, o1).
Proof. intros H. unfold bind. rewrite H. reflexivity. Qed.

Lemma admit_n_0 m : admit_n 0 m = m.
Proof.
  destruct m; unfold admit_n; cbn; f_equal; try lia; apply app_nil_r.
Qed.

Lemma _start_loop_eq fuel m :
  (List.length (_tasksData m) <= fuel)%nat ->
  _start_loop fuel m =
    (inr tt, admit_n (sweep_count m) m,
     admit_outs (_index m) (firstn (sweep_count m) (_tasksData m))).
Proof.
  revert m; induction fuel as [|fuel IH]; intros m Hlen.
  - destruct (_tasksData m) eqn:Htd; cbn in Hlen; [|lia].
    unfold sweep_count; rewrite Htd; cbn. rewrite admit_n_0. reflexivity.
  - cbn [_start_loop]. unfold bind at 1, get.
    destruct (Z.ltb_spec (_currentConcurrency m) (concurrency m)) as [Hlt|Hge].
    + destruct (_tasksData m) as [|d rest] eqn:Htd.
      * unfold sweep_count; rewrite Htd; cbn. rewrite admit_n_0. reflexivity.
      * cbn. rewrite IH by (cbn in *; lia).
        match goal with |- context [sweep_count ?X] =>
          remember (sweep_count X) as k eqn:Hk end.
        assert (Hsc : sweep_count m = S k).
        { subst k. unfold sweep_count; cbn. rewrite Htd.
          replace (concurrency m - _currentConcurrency m)
            with (Z.succ (concurrency m - (_currentConcurrency m + 1))) by lia.
          rewrite Z2Nat.inj_succ by lia. reflexivity. }
        rewrite Hsc. clear Hk. destruct m; cbn in *; subst.
        unfold admit_n; cbn. rewrite Zpos_P_of_succ_nat, <- app_assoc.
        do 3 f_equal; lia.
    + unfold sweep_count.
      replace (Z.to_nat (concurrency m - _currentConcurrency m)) with 0%nat by lia.
      rewrite Nat.min_0_r, admit_n_0. reflexivity.
Qed.

Lemma _start_eq m : _start m = start_res m.
Proof.
  unfold _start. rewrite (bind_ok _ _ m m m []) by reflexivity.
  rewrite (bind_ok _ _ m tt _ _) by (apply _start_loop_eq; lia).
  unfold bind, get, modify, throw, ret, start_res. cbn.
  destruct (negb (endless m) && (_currentConcurrency m + Z.of_nat (sweep_count m) =? 0));
    [destruct (_deferred m)|]; cbn; rewrite ?app_nil_r; reflexivity.
Qed.

Lemma length_admitted r i (l : list T) :
  List.length (admitted r i l) = List.length l.
Proof. revert i; induction l; intros; cbn; auto. Qed.

Lemma length_replace_nth k (x : task T) l :
  List.length (replace_nth k x l) = List.length l.
Proof. revert k; induction l; intros [|k]; cbn; auto. Qed.

Lemma length_remove_nth k (l : list (task T)) :
  (k < List.length l)%nat -> List.length (remove_nth k l) = pred (List.length l).
Proof.
  revert k; induction l as [|y l IH]; intros [|k] H; cbn in *; try lia.
  rewrite IH by lia. destruct l; cbn in *; lia.
Qed.

Lemma nth_error_length k (l : list (task T)) x :
  nth_error l k = Some x -> (k < List.length l)%nat.
Proof. intros H. apply nth_error_Some. congruence. Qed.

End Facts.

Ltac split_match :=
  match goal with
  | |- context [match ?x with _ => _ end] =>
    lazymatch x with
    | context [match _ with _ => _ end] => fail
    | _ => destruct x eqn:?
    end
  end.

Ltac sym :=
  repeat (progress (cbn -[_start] in *; rewrite ?_start_eq; unfold start_res)
          || split_match).

Ltac bool_facts :=
  repeat match goal with
         | H : (_ && _)%bool = true |- _ => apply andb_prop in H as [? ?]
         | H : (_ && _)%bool = false |- _ => apply andb_false_iff in H as [?|?]
         | H : negb _ = true |- _ => apply negb_true_iff in H
         | H : negb _ = false |- _ => apply negb_false_iff in H
         | H : (_ =? _) = true |- _ => apply Z.eqb_eq in H
         | H : (_ =? _) = false |- _ => apply Z.eqb_neq in H
         | H : (_ <? _) = true |- _ => apply Z.ltb_lt in H
         | H : (_ <? _) = false |- _ => apply Z.ltb_ge in H
         end.

Section InvProof.
Context {T : Type}.
Implicit Types (m : machine T).

Lemma resolve_deferred_rejected r d e :
  resolve_deferred r d = DRejected e -> d = DRejected e.
Proof. destruct d; cbn; congruence. Qed.

Ltac use_impls :=
  repeat match goal with
         | H : ?P -> _, H' : ?P |- _ =>
           match type of P with Prop => specialize (H H') end
         end.

Ltac finish_inv :=
  unfold Inv in *; cbn in *; bool_facts;
  repeat match goal with
         | H : nth_error _ _ = Some _ |- _ =>
           pose proof (nth_error_length _ _ _ H); clear H
         end;
  rewrite ?length_app, ?length_admitted, ?length_firstn, ?length_replace_nth in *;
  rewrite ?length_remove_nth by (rewrite ?length_replace_nth; lia);
  rewrite ?length_replace_nth in *;
  use_impls;
  repeat split; intros; use_impls;
  try (let Hc := fresh in intro Hc; injection Hc as Hc;
       apply resolve_deferred_rejected in Hc);
  try congruence; try lia; try (exfalso; eauto; congruence);
  try (match goal with H : _ -> ?G |- ?G => apply H; congruence end).

Lemma Inv_step m e : Inv m -> Inv (fst (step m e)).
Proof.
  intros HI. pose proof HI as (H1 & H2 & H3 & H4 & H5).
  destruct e; unfold step, dispatch, catch_to, try_catch, add, start, pause,
    resume, reset, reset_then, on_fulfilled, on_fail, _next, _notifyProgress,
    resolve_pause, bind, get, modify, tell, ret, throw; sym.
  all: finish_inv.
Qed.

Lemma Inv_init c e : Inv (init (T:=T) c e).
Proof. unfold Inv; cbn; repeat split; intros; congruence || lia. Qed.

Lemma Inv_run m es : Inv m -> Inv (fst (run m es)).
Proof.
  revert m; induction es as [|e es IH]; intros m H; cbn; auto.
  destruct (step m e) as [m1 o1] eqn:E. destruct (run m1 es) as [m2 o2] eqn:E2.
  cbn. change m2 with (fst (m2, o2)). rewrite <- E2. apply IH.
  change m1 with (fst (m1, o1)). rewrite <- E. now apply Inv_step.
Qed.

Lemma admit_outs_snap i (l : list T) : Forall snap_ok (admit_outs i l).
Proof. revert i; induction l; intros; cbn; constructor; cbn; auto. Qed.

Lemma snap_step m e : Inv m -> Forall snap_ok (snd (step m e)).
Proof.
  intros HI. pose proof HI as (H1 & H2 & H3 & H4 & H5).
  destruct e; unfold step, dispatch, catch_to, try_catch, add, start, pause,
    resume, reset, reset_then, on_fulfilled, on_fail, _next, _notifyProgress,
    resolve_pause, bind, get, modify, tell, ret, throw; sym.
  all: repeat first [ apply Forall_nil | apply admit_outs_snap
                    | rewrite Forall_app; split | apply Forall_cons ];
       cbn; try lia; auto.
Qed.

Lemma snap_run m es : Inv m -> Forall snap_ok (snd (run m es)).
Proof.
  revert m; induction es as [|e es IH]; intros m H; cbn; auto.
  destruct (step m e) as [m1 o1] eqn:E. destruct (run m1 es) as [m2 o2] eqn:E2.
  cbn. apply Forall_app; split.
  - change o1 with (snd (m1, o1)). rewrite <- E. now apply snap_step.
  - change o2 with (snd (m2, o2)). rewrite <- E2. apply IH.
    change m1 with (fst (m1, o1)). rewrite <- E. now apply Inv_step.
Qed.

Lemma resolve_step m e :
  resolved m = false -> resolved (fst (step m e)) = true ->
  _deferred (fst (step m e)) = Some (DResolved (result_of (fst (step m e)))).
Proof.
  intros Hm.
  unfold resolved in Hm.
  destruct e; unfold step, dispatch, catch_to, try_catch, add, start, pause,
    resume, reset, reset_then, on_fulfilled, on_fail, _next, _notifyProgress,
    resolve_pause, bind, get, modify, tell, ret, throw; sym.
  all: unfold resolved in *; cbn in *; intros Hr;
       try reflexivity;
       try (destruct (_deferred m) as [[]|]; cbn in *; congruence);
       try (match goal with d : dstate |- _ => destruct d end; cbn in *;
            try discriminate;
            match goal with H : DResolved _ = DResolved _ |- _ =>
              injection H as <-; reflexivity end);
       try (match goal with H : _deferred _ = Some _ |- _ => rewrite H in * end;
            match goal with d : dstate |- _ => destruct d end; cbn in *;
            congruence).
Qed.

End InvProof.

Section Claims.
Context {T : Type}.

(** C4: in every run from a new pool, at every instant
    [total = fulfilled + rejected + pending]: in the pool's state, in every
    counter snapshot passed to [onProgress], and in the state in which the
    completion deferred gets resolved, whose [IResult] is the
    [fulfilled]/[rejected]/[total] of that state. *)
Theorem counters_total_invariant c en (es : list (event T)) :
  let (m, o) := run (init c en) es in
  total m = fulfilled m + rejected m + pending m /\
  Forall snap_ok o /\
  (forall e, resolved m = false -> resolved (fst (step m e)) = true ->
     exists r, _deferred (fst (step m e)) = Some (DResolved r) /\
       r = result_of (fst (step m e)) /\
       r_total r = r_fulfilled r + r_rejected r + pending (fst (step m e))).
Proof.
  destruct (run (init c en) es) as [m o] eqn:E.
  assert (HI : Inv m).
  { change m with (fst (m, o)). rewrite <- E. apply Inv_run, Inv_init. }
  split; [apply HI|split].
  - change o with (snd (m, o)). rewrite <- E. apply snap_run, Inv_init.
  - intros e H0 H1. exists (result_of (fst (step m e))).
    split; [now apply resolve_step|split; [reflexivity|]].
    destruct (Inv_step m e HI) as [Ht _]. cbn. exact Ht.
Qed.

Ltac finish_cc :=
  cbn in *; bool_facts;
  repeat match goal with
         | H : nth_error _ _ = Some _ |- _ => clear H
         end;
  (split; [lia | intros; try congruence; lia]).

(** A step never raises the running count above both its previous value
    and the current [concurrency]. *)
Lemma running_count_net (m : machine T) (e : event T) :
  let m' := fst (step m e) in
  (_currentConcurrency m' <= _currentConcurrency m \/
   _currentConcurrency m' <= concurrency m') /\
  (_currentConcurrency m <= concurrency m ->
   (forall c, e <> ESetConcurrency c) ->
   _currentConcurrency m' <= concurrency m').
Proof.
  destruct e; unfold step, dispatch, catch_to, try_catch, add, start, pause,
    resume, reset, reset_then, on_fulfilled, on_fail, _next, _notifyProgress,
    resolve_pause, bind, get, modify, tell, ret, throw; sym.
  all: try finish_cc.
  (* [pool.concurrency = c] *)
  split; [left; lia|]. intros _ H. exfalso; eapply H; reflexivity.
Qed.

(** C5: counterexample.  Two tasks running under [concurrency = 2]; setting
    [pool.concurrency = 1] leaves [_currentConcurrency = 2 > 1]. *)
Lemma running_count_exceeds_lowered_bound :
  let m := fst (run (init (T:=Z) 2 false)
                  [EAdd [1; 2]; EStart None; ESetConcurrency 1]) in
  _currentConcurrency m = 2 /\ concurrency m = 1.
Proof. vm_compute. split; reflexivity. Qed.

(** C9: the three misuse calls are no-ops that only warn: [add] on a pool
    whose completion deferred is resolved, [pause] while [_pauseDeferred]
    is set (pausing or paused), [resume] while it is not. *)
Theorem misuse_calls_are_noops (m : machine T) (items : list T) :
  (resolved m = true ->
   step m (EAdd items) =
     (m, [OWarn "all the tasks have been accomplished, reset the pool before adding new tasks."%string])) /\
  (_pauseDeferred m <> None ->
   exists msg, step m EPause = (m, [OWarn msg])) /\
  (_pauseDeferred m = None ->
   step m EResume = (m, [OWarn "tasks are not paused."%string])).
Proof.
  split; [|split].
  - intros H. unfold resolved in H.
    unfold step, dispatch, catch_to, try_catch, add, bind, get, tell, accomplished.
    destruct (_deferred m) as [[]|]; try discriminate. reflexivity.
  - intros H. unfold step, dispatch, catch_to, try_catch, pause, bind, get, tell.
    destruct (_pauseDeferred m) as [[]|]; [eexists|eexists|congruence]; reflexivity.
  - intros H. unfold step, dispatch, catch_to, try_catch, resume, bind, get, tell.
    rewrite H. reflexivity.
Qed.

(** C10: before [start()] ([_deferred] not created) on a non-endless pool,
    an [add] whose admission sweep leaves nothing running throws a
    [TypeError] out of [add] (the terminal check calls [resolve] on
    [undefined]); the same [TypeError] is thrown inside the promise callback
    when the last task admitted before [start()] completes.  The deferred is
    not created and nothing resolves. *)
Theorem add_before_start_throws (m : machine T) :
  _deferred m = None -> endless m = false ->
  (forall items, _currentConcurrency m = 0 ->
     (concurrency m <= 0 \/ _tasksData m ++ items = []) ->
     exists m', add items m = (inl ExnType, m', [OEnqueue items]) /\
       _deferred m' = None /\
       step m (EAdd items) = (m', [OEnqueue items; OThrown ExnType])) /\
  (forall t, _tasksData m = [] -> _pauseDeferred m = None ->
     onProgress m = None -> inflight m = [t] -> t_running t = true ->
     _currentConcurrency m = 1 ->
     In (OUnhandled ExnType) (snd (step m (ESettle 0 Fulfilled))) /\
     _deferred (fst (step m (ESettle 0 Fulfilled))) = None).
Proof.
  intros Hd He. split.
  - intros items Hc Hs.
    assert (Hadd : exists m', add items m = (inl ExnType, m', [OEnqueue items]) /\
                              _deferred m' = None).
    { unfold add, bind, get, modify, tell, accomplished. rewrite Hd.
      cbn -[_start]. rewrite _start_eq. unfold start_res, sweep_count. cbn.
      rewrite He, Hc, Hd.
      assert (Hk : Nat.min (List.length (_tasksData m ++ items))
                     (Z.to_nat (concurrency m - 0)) = 0%nat).
      { destruct Hs as [Hs|Hs]; [|rewrite Hs; reflexivity].
        replace (Z.to_nat (concurrency m - 0)) with 0%nat by lia.
        apply Nat.min_0_r. }
      rewrite Hk. cbn. eexists; split; [reflexivity|].
      rewrite admit_n_0. exact Hd. }
    destruct Hadd as [m' [Hadd Hd']]. exists m'. split; [exact Hadd|split; [exact Hd'|]].
    unfold step, dispatch, catch_to, try_catch. rewrite Hadd. reflexivity.
  - intros t Htd Hp Ho Hi Hr Hc.
    unfold step, dispatch, catch_to, try_catch, on_fulfilled, _notifyProgress,
      _next, bind, get, modify, tell, ret, throw.
    rewrite Hi. cbn -[_start]. rewrite Hr. cbn -[_start]. rewrite Ho.
    cbn -[_start]. rewrite Hp. cbn -[_start]. rewrite _start_eq.
    unfold start_res, sweep_count. cbn. rewrite Htd, He, Hd. cbn.
    rewrite Hc. cbn. split; [auto 20 | rewrite ?admit_n_0; cbn; exact Hd].
Qed.

(** A task of the [k]-th chain succeeds while an observer is installed:
    the observer gets the progress snapshot; if it throws, the exception
    escapes the [.then] handler (an unhandled rejection) after the counters
    were updated and before [_next], so the slot is not released. *)
Lemma settle_delivers_progress (m : machine T) f k t :
  onProgress m = Some f -> nth_error (inflight m) k = Some t ->
  t_running t = true ->
  let p := snapshot (decr_pending (incr_fulfilled
             (set_inflight (remove_nth k (inflight m)) m))) (t_index t) true None None in
  In (OProgress p (f p)) (snd (step m (ESettle k Fulfilled))) /\
  (forall x, f p = Some x ->
     In (OUnhandled (ExnObserver x)) (snd (step m (ESettle k Fulfilled))) /\
     fst (step m (ESettle k Fulfilled)) =
       decr_pending (incr_fulfilled (set_inflight (remove_nth k (inflight m)) m))).
Proof.
  intros Hf Hn Hr p.
  unfold step, dispatch, catch_to, try_catch, on_fulfilled, _notifyProgress,
    bind, get, modify, tell, ret, throw.
  rewrite Hn, Hr. cbn -[_next snapshot]. rewrite Hf. fold p.
  destruct (f p) as [x|] eqn:E.
  - cbn. split; [auto | intros x' Hx; injection Hx as <-; split; auto].
  - split; [|intros; discriminate].
    destruct (_next _) as [[[] m'] o']; cbn; auto.
Qed.

(** C1 (amended): the pool does not capture observer errors.  On every
    run, the completion deferred is never rejected (it is only ever
    resolved, by the terminal check).  Whenever a running task succeeds with
    an observer installed, the observer receives the progress snapshot,
    also after it has thrown on earlier events; if it throws, the exception
    escapes as an unhandled rejection, the counters are already updated and
    nothing else changes: [_next] is skipped, so the slot stays taken. *)
Theorem observer_errors_not_captured c en (es : list (event T)) :
  let m := fst (run (init c en) es) in
  (forall x, _deferred m <> Some (DRejected x)) /\
  (forall f k t, onProgress m = Some f -> nth_error (inflight m) k = Some t ->
     t_running t = true ->
     let p := snapshot (decr_pending (incr_fulfilled
                (set_inflight (remove_nth k (inflight m)) m))) (t_index t) true None None in
     In (OProgress p (f p)) (snd (step m (ESettle k Fulfilled))) /\
     (forall x, f p = Some x ->
        In (OUnhandled (ExnObserver x)) (snd (step m (ESettle k Fulfilled))) /\
        fst (step m (ESettle k Fulfilled)) =
          decr_pending (incr_fulfilled (set_inflight (remove_nth k (inflight m)) m)))).
Proof.
  intros m. split.
  - destruct (Inv_run _ es (Inv_init c en)) as (_ & _ & _ & _ & H). exact H.
  - intros f k t Hf Hn Hr. apply settle_delivers_progress; assumption.
Qed.

Lemma admit_outs_no_return i (l : list T) b : ~ In (OStartReturn b) (admit_outs i l).
Proof.
  revert i; induction l as [|d l IH]; intros i; cbn; [tauto|].
  intros [H|H]; [discriminate|eapply IH; eauto].
Qed.

Lemma endless_step (m : machine T) (e : event T) :
  e <> ESetEndless false -> endless_ok m -> endless_ok (fst (step m e)).
Proof.
  intros He [H1 H2].
  destruct e; unfold step, dispatch, catch_to, try_catch, add, start, pause,
    resume, reset, reset_then, on_fulfilled, on_fail, _next, _notifyProgress,
    resolve_pause, bind, get, modify, tell, ret, throw; sym.
  all: unfold endless_ok; cbn in *; bool_facts; try (split; [congruence|]).
  all: try (intros r0; first [exact (H2 r0) | congruence]).
  destruct b; [split; auto | congruence].
Qed.

Lemma endless_run (m : machine T) (es : list (event T)) :
  Forall (fun e => e <> ESetEndless false) es -> endless_ok m ->
  endless_ok (fst (run m es)).
Proof.
  revert m; induction es as [|e es IH]; intros m Hes Hm; [exact Hm|].
  inversion Hes; subst. cbn. destruct (step m e) as [m1 o1] eqn:E.
  destruct (run m1 es) as [m2 o2] eqn:E2. cbn.
  replace m2 with (fst (run m1 es)) by (rewrite E2; reflexivity).
  apply IH; auto. replace m1 with (fst (step m e)) by (rewrite E; reflexivity).
  apply endless_step; auto.
Qed.

(** C7: on a pool constructed with [endless = true] (and never switched
    back), along every run the terminal check never resolves the completion
    deferred, whatever the backlog and running count; every [add] is
    accepted (its items are enqueued and counted in [total]); and [start()]
    returns [null] ([OStartReturn false]), never the promise. *)
Theorem endless_never_completes c (es : list (event T)) :
  Forall (fun e => e <> ESetEndless false) es ->
  let m := fst (run (init c true) es) in
  (forall r, _deferred m <> Some (DResolved r)) /\
  (forall items, In (OEnqueue items) (snd (step m (EAdd items))) /\
     total (fst (step m (EAdd items))) = total m + Z.of_nat (List.length items)) /\
  (forall obs, In (OStartReturn false) (snd (step m (EStart obs))) /\
     ~ In (OStartReturn true) (snd (step m (EStart obs)))).
Proof.
  intros Hes m.
  assert (HE : endless_ok m) by (apply endless_run; [exact Hes | split; cbn; congruence]).
  destruct (Inv_run _ es (Inv_init c true)) as (_ & _ & _ & _ & HR).
  fold m in HR. destruct HE as [H1 H2].
  split; [exact H2|split].
  - intros items.
    unfold step, dispatch, catch_to, try_catch, add, bind, get, modify, tell, ret, throw.
    sym.
    all: try (split; [now left|reflexivity]).
    unfold accomplished in *. exfalso.
    destruct (_deferred m) as [[| |]|] eqn:Ed; try discriminate;
      first [eapply H2; reflexivity | eapply HR; reflexivity].
  - intros obs.
    unfold step, dispatch, catch_to, try_catch, start, bind, get, modify, tell, ret, throw.
    sym.
    all: rewrite ?H1; cbn; rewrite ?in_app_iff; cbn;
      (split; [auto | intros [HH|[HH|HH]]]);
      try discriminate; try contradiction;
      eapply admit_outs_no_return; exact HH.
Qed.

(** C8: once a pool has completed (its deferred resolved, nothing running)
    and no earlier [reset] continuation is pending, [reset()] followed by
    its continuation leaves exactly the state of a newly constructed pool
    with the same configuration ([concurrency], [endless], [retries]): all
    counters 0, empty backlog, index 0, no deferred, no pause state, no
    observer.  Every later sequence of calls therefore behaves as on that
    new pool. *)
Theorem reset_after_completion c en (es : list (event T)) r :
  let m := fst (run (init c en) es) in
  _deferred m = Some (DResolved r) -> _currentConcurrency m = 0 ->
  resetsReady m = 0%nat ->
  let m2 := fst (run m [EReset; EResetThen]) in
  m2 = set_retries (retries m) (init (concurrency m) (endless m)) /\
  In OResetDone (snd (run m [EReset; EResetThen])) /\
  (forall es', run m2 es' = run (set_retries (retries m) (init (concurrency m) (endless m))) es').
Proof.
  intros m Hd Hc Hr.
  destruct (Inv_run _ es (Inv_init c en)) as (_ & H2 & H3 & H4 & _).
  fold m in H2, H3, H4. clearbody m.
  assert (Hi : inflight m = []).
  { destruct (inflight m); [reflexivity|]. cbn in H2. lia. }
  assert (Hw : resetsWaiting m = 0%nat).
  { destruct (resetsWaiting m) eqn:E; [reflexivity|].
    exfalso. apply H3; [apply H4; congruence | exact Hc]. }
  assert (Hm2 : fst (run m [EReset; EResetThen]) =
                set_retries (retries m) (init (concurrency m) (endless m)) /\
                In OResetDone (snd (run m [EReset; EResetThen]))).
  { destruct m as [conc td d pd f rj p t en' rt idx cc op inf w rd]; cbn in *.
    subst.
    unfold step, dispatch, catch_to, try_catch, reset, pause, reset_then,
      resolve_pause, bind, get, modify, tell, ret.
    destruct pd as [[]|]; cbn;
      [exfalso; apply H3; reflexivity | split; auto .. ]. }
  destruct Hm2 as [Hm2 Ho]. split; [exact Hm2|split; [exact Ho|]].
  intros es'. rewrite Hm2. reflexivity.
Qed.




Lemma remove_replace_nth k (y : task T) l :
  remove_nth k (replace_nth k y l) = remove_nth k l.
Proof.
  revert l; induction k as [|k IH]; intros [|z l]; cbn; try rewrite IH; reflexivity.
Qed.

Lemma admissions_app (o1 o2 : list (out T)) : admissions (o1 ++ o2) = admissions o1 ++ admissions o2.
Proof. apply flat_map_app. Qed.

Lemma length_admissions_admit_outs i (l : list T) :
  List.length (admissions (admit_outs i l)) = List.length l.
Proof. revert i; induction l as [|d l IH]; intros i; [reflexivity|cbn; f_equal; apply IH]. Qed.


(** One step frees at most one slot and then admits tasks one at a time,
    each raising the running count by one. *)
Lemma step_admission_count (m : machine T) (e : event T) :
  let m' := fst (step m e) in
  let n := Z.of_nat (List.length (admissions (snd (step m e)))) in
  exists freed, (freed = 0 \/ freed = 1) /\
    _currentConcurrency m' = _currentConcurrency m - freed + n /\
    (0 < n -> _currentConcurrency m' <= concurrency m').
Proof.
  destruct e; unfold step, dispatch, catch_to, try_catch, add, start, pause,
    resume, reset, reset_then, on_fulfilled, on_fail, _next, _notifyProgress,
    resolve_pause, bind, get, modify, tell, ret, throw; sym.
  all: try change (flat_map ?f ?l) with (admissions l).
  all: rewrite ?admissions_app, ?length_app, ?length_admissions_admit_outs, ?length_firstn.
  all: cbn; unfold sweep_count in *; cbn in *.
  all: rewrite ?length_app in *; bool_facts;
    first [ exists 0; split; [left; reflexivity|]; split; [lia|intros; lia]
          | exists 1; split; [right; reflexivity|]; split; [lia|intros; lia] ].
Qed.

(** C5 (amended): a step never raises the running count above both its
    previous value and the current [concurrency]; a step that does not
    reassign [concurrency] keeps [_currentConcurrency <= concurrency].  A
    step frees at most one slot ([freed]) and then admits [n] tasks one by
    one, the admission loop admitting only while
    [_currentConcurrency < concurrency]: when it admits any task the running
    count ends at most at [concurrency], so each admission happened below
    the bound; and when the running count, after the freed slot, is at or
    above the bound (as after [concurrency] was lowered), nothing is
    admitted. *)
Theorem running_count_step_bound (m : machine T) (e : event T) :
  let m' := fst (step m e) in
  let n := Z.of_nat (List.length (admissions (snd (step m e)))) in
  (_currentConcurrency m' <= _currentConcurrency m \/
   _currentConcurrency m' <= concurrency m') /\
  (_currentConcurrency m <= concurrency m ->
   (forall c, e <> ESetConcurrency c) ->
   _currentConcurrency m' <= concurrency m') /\
  (exists freed, (freed = 0 \/ freed = 1) /\
    _currentConcurrency m' = _currentConcurrency m - freed + n /\
    (0 < n -> _currentConcurrency m' <= concurrency m') /\
    (concurrency m' <= _currentConcurrency m - freed -> n = 0)).
Proof.
  cbv zeta.
  destruct (running_count_net m e) as [H1 H2].
  destruct (step_admission_count m e) as (f & Hf & H3 & H4).
  split; [exact H1|split; [exact H2|]].
  exists f. split; [exact Hf|split; [exact H3|split; [exact H4|]]].
  intros H5.
  destruct (Z.eq_dec (Z.of_nat (List.length (admissions (snd (step m e))))) 0)
    as [E|E]; [exact E|].
  specialize (H4 ltac:(lia)). lia.
Qed.

Lemma set_inflight_twice (a b : list (task T)) (m : machine T) :
  set_inflight a (set_inflight b m) = set_inflight a m.
Proof. destruct m; reflexivity. Qed.





(*
    rewrite ?app_nil_r, ?length_app; cbn;
*)



Lemma admissions_cons (x : out T) o :
  admissions (x :: o) = match x with OAdmit d i => [(d, i)] | _ => [] end ++ admissions o.
Proof. reflexivity. Qed.
Lemma enqueued_cons (x : out T) o :
  enqueued (x :: o) = match x with OEnqueue l => l | _ => [] end ++ enqueued o.
Proof. reflexivity. Qed.
Lemma admissions_nil : admissions (T:=T) [] = [].
Proof. reflexivity. Qed.
Lemma enqueued_nil : enqueued (T:=T) [] = [].
Proof. reflexivity. Qed.
Lemma enqueued_app (o1 o2 : list (out T)) : enqueued (o1 ++ o2) = enqueued o1 ++ enqueued o2.
Proof. apply flat_map_app. Qed.
Lemma admissions_admit_outs i (l : list T) : admissions (admit_outs i l) = indexed i l.
Proof. revert i; induction l as [|d l IH]; intros i; [reflexivity|]. cbn. f_equal. apply IH. Qed.
Lemma enqueued_admit_outs i (l : list T) : enqueued (admit_outs i l) = [].
Proof. revert i; induction l as [|d l IH]; intros i; [reflexivity|apply IH]. Qed.
Lemma map_fst_indexed i (l : list T) : map fst (indexed i l) = l.
Proof. revert i; induction l as [|d l IH]; intros i; cbn; [reflexivity|f_equal; apply IH]. Qed.
Lemma length_indexed i (l : list T) : List.length (indexed i l) = List.length l.
Proof. revert i; induction l as [|d l IH]; intros i; cbn; [reflexivity|f_equal; apply IH]. Qed.
Lemma map_snd_indexed n (l : list T) :
  map snd (indexed (Z.of_nat n) l) = map Z.of_nat (seq n (List.length l)).
Proof.
  revert n; induction l as [|d l IH]; intros n; cbn; [reflexivity|].
  f_equal. replace (Z.of_nat n + 1) with (Z.of_nat (S n)) by lia. apply IH.
Qed.
Lemma in_admitted_indexed r i (l : list T) t :
  In t (admitted r i l) -> In (t_data t, t_index t) (indexed i l).
Proof.
  revert i; induction l as [|d l IH]; intros i H; cbn in *; [contradiction|].
  destruct H as [<-|H]; [left; reflexivity|right; apply IH; exact H].
Qed.
Lemma in_remove_nth k (l : list (task T)) t : In t (remove_nth k l) -> In t l.
Proof.
  revert l; induction k as [|k IH]; intros [|z l] H; cbn in *; auto.
  destruct H; auto.
Qed.
Lemma in_replace_nth k x (l : list (task T)) t :
  In t (replace_nth k x l) -> In t l \/ t = x.
Proof.
  revert l; induction k as [|k IH]; intros [|z l] H; cbn in *; auto.
  - destruct H; auto.
  - destruct H as [H|H]; auto. destruct (IH l H); auto.
Qed.
Lemma admit_outs_no_invoke i (l : list T) d j : ~ In (OInvoke d j) (admit_outs i l).
Proof.
  revert i; induction l as [|x l IH]; intros i; cbn; [tauto|].
  intros [H|H]; [discriminate|eapply IH; eauto].
Qed.

Ltac sym_idx :=
  repeat (progress (cbn -[_start admissions enqueued index_ok] in *;
                    rewrite ?_start_eq; unfold start_res)
          || split_match).

(** One step keeps the index bookkeeping, extended by the step's own
    admissions and enqueued items; its processor calls use admitted pairs. *)
Lemma index_step (m : machine T) e adm enq :
  e <> EResetThen -> index_ok m adm enq ->
  index_ok (fst (step m e)) (adm ++ admissions (snd (step m e)))
           (enq ++ enqueued (snd (step m e))) /\
  (forall d i, In (OInvoke d i) (snd (step m e)) -> In (d, i) adm).
Proof.
  intros He HJ. destruct e; try (exfalso; apply He; reflexivity).
  all: unfold step, dispatch, catch_to, try_catch, add, start, pause,
    resume, reset, on_fulfilled, on_fail, _next, _notifyProgress,
    resolve_pause, bind, get, modify, tell, ret, throw; sym_idx.
  all: destruct HJ as (J1 & J2 & J3 & J4); split.
  all: repeat (progress rewrite ?admissions_app, ?enqueued_app, ?admissions_cons,
           ?enqueued_cons, ?admissions_nil, ?enqueued_nil, ?admissions_admit_outs,
           ?enqueued_admit_outs).
  all: cbn -[indexed admitted admit_outs firstn skipn seq].
  all: rewrite ?app_nil_r.
  all: try (intros d0 i0 Hi; rewrite ?in_app_iff in Hi; cbn in Hi;
            repeat match goal with
                   | H : _ \/ _ |- _ => destruct H as [H|H]
                   end;
            try discriminate; try contradiction;
            try (exfalso; eapply admit_outs_no_invoke; eassumption);
            injection Hi as <- <-; apply J4; eapply nth_error_In; eassumption).
  all: try (unfold index_ok; cbn -[indexed admitted firstn skipn seq]; rewrite ?J3;
            refine (conj _ (conj _ (conj _ _)))).
  all: try (rewrite J1, ?map_app, ?map_fst_indexed, <- ?app_assoc, ?firstn_skipn;
            reflexivity).
  all: try (rewrite ?map_app, ?length_app, ?length_indexed, J2, ?map_snd_indexed,
              ?seq_app, ?map_app; reflexivity).
  all: try (rewrite ?length_app, ?length_indexed, ?length_firstn, ?length_app; lia).
  all: try (intros t0 Ht; rewrite ?in_app_iff;
            repeat match goal with
                   | H : In _ (_ ++ _) |- _ => apply in_app_or in H; destruct H as [H|H]
                   | H : In _ (remove_nth _ _) |- _ => apply in_remove_nth in H
                   | H : In _ (replace_nth _ _ _) |- _ =>
                       apply in_replace_nth in H; destruct H as [H|H]; [|subst t0]
                   | H : In _ (admitted _ _ _) |- _ => apply in_admitted_indexed in H
                   end;
            cbn;
            first [ apply J4; assumption
                  | left; apply J4; assumption
                  | right; assumption
                  | apply J4; eapply nth_error_In; eassumption
                  | left; apply J4; eapply nth_error_In; eassumption ]).
Qed.

Lemma index_run (m : machine T) es : forall adm enq,
  Forall (fun e => e <> EResetThen) es -> index_ok m adm enq ->
  index_ok (fst (run m es)) (adm ++ admissions (snd (run m es)))
           (enq ++ enqueued (snd (run m es))) /\
  (forall d i, In (OInvoke d i) (snd (run m es)) ->
     In (d, i) (adm ++ admissions (snd (run m es)))).
Proof.
  revert m; induction es as [|e es IH]; intros m adm enq Hes HJ.
  - cbn. rewrite !app_nil_r. split; [exact HJ | contradiction].
  - inversion Hes as [|? ? He Hes']; subst.
    destruct (index_step m e adm enq He HJ) as [HJ1 HI1].
    cbn. destruct (step m e) as [m1 o1]. cbn [fst snd] in *.
    destruct (IH m1 _ _ Hes' HJ1) as [HJ2 HI2].
    destruct (run m1 es) as [m2 o2]. cbn [fst snd] in *.
    rewrite admissions_app, enqueued_app, !app_assoc. split; [exact HJ2|].
    intros d i Hi. apply in_app_or in Hi as [Hi|Hi].
    + apply in_or_app; left; apply in_or_app; left. exact (HI1 d i Hi).
    + apply HI2. exact Hi.
Qed.

Lemma NoDup_map_inj {A B} (f : A -> B) (l : list A) :
  (forall x y, f x = f y -> x = y) -> NoDup l -> NoDup (map f l).
Proof.
  intros Hf Hl. induction Hl as [|x l Hx Hl IH]; cbn; constructor; auto.
  intros Hin. apply in_map_iff in Hin as (y & Hy & Hin).
  apply Hf in Hy. subst. contradiction.
Qed.

Lemma NoDup_snd_unique (l : list (T * Z)) d d' i :
  NoDup (map snd l) -> In (d, i) l -> In (d', i) l -> d = d'.
Proof.
  induction l as [|[x j] l IH]; intros Hn H1 H2; cbn in *; [contradiction|].
  inversion Hn as [|? ? Hj Hn']; subst.
  destruct H1 as [H1|H1], H2 as [H2|H2].
  - congruence.
  - injection H1 as E1 E2; subst. exfalso. apply Hj, in_map_iff.
    eexists; split; [|exact H2]; reflexivity.
  - injection H2 as E1 E2; subst. exfalso. apply Hj, in_map_iff.
    eexists; split; [|exact H1]; reflexivity.
  - eauto.
Qed.

(** C6: along every run from a new pool without a [reset] continuation
    ([EResetThen]), the indices handed to [_process] are exactly
    [0, 1, ..., N-1] for the [N] items admitted so far, in order, hence
    pairwise distinct; the admitted items followed by the backlog are
    exactly the enqueued items, in enqueue order (FIFO); every processor
    call, first attempt or retry, is made with an (item, index) pair that
    was admitted; and an index is paired with a single item, so all
    attempts of a task share its payload and index. *)
Theorem indices_in_enqueue_order c en (es : list (event T)) :
  Forall (fun e => e <> EResetThen) es ->
  let (m, o) := run (init c en) es in
  map snd (admissions o) = map Z.of_nat (seq 0 (List.length (admissions o))) /\
  map fst (admissions o) ++ _tasksData m = enqueued o /\
  NoDup (map snd (admissions o)) /\
  (forall d i, In (OInvoke d i) o -> In (d, i) (admissions o)) /\
  (forall d d' i, In (d, i) (admissions o) -> In (d', i) (admissions o) -> d = d').
Proof.
  intros Hes.
  assert (H0 : index_ok (init (T:=T) c en) [] []).
  { unfold index_ok; cbn. repeat split; contradiction. }
  destruct (index_run _ es [] [] Hes H0) as [(J1 & J2 & _ & _) HI].
  destruct (run (init c en) es) as [m o]. cbn [fst snd app] in *.
  assert (Hnd : NoDup (map snd (admissions o))).
  { rewrite J2. apply NoDup_map_inj; [lia | apply seq_NoDup]. }
  split; [exact J2|split; [symmetry; exact J1|split; [exact Hnd|split; [exact HI|]]]].
  intros d d' i. apply NoDup_snd_unique. exact Hnd.
Qed.

End Claims.

(** C10: witness.  A new pool ([concurrency = 1]) and [add([])]. *)
Lemma add_before_start_throws_witness :
  exists m', add (T:=Z) [] (init 1 false) = (inl ExnType, m', [OEnqueue []]).
Proof.
  destruct (add_before_start_throws (init (T:=Z) 1 false) eq_refl eq_refl)
    as [H _].
  destruct (H [] eq_refl (or_intror eq_refl)) as [m' [Hm _]].
  exists m'. exact Hm.
Defined.

(** C7: witness.  An endless pool runs one task to completion: the backlog
    is empty and no task runs, yet the completion deferred is not resolved;
    a later [add] is accepted and [start()] returns [null]. *)
Lemma endless_never_completes_witness :
  let es := [EAdd [4]; EStart None; EInvoke 0; ESettle 0 Fulfilled] in
  let m := fst (run (init (T:=Z) 1 true) es) in
  _tasksData m = [] /\ _currentConcurrency m = 0 /\ fulfilled m = 1 /\
  (forall r, _deferred m <> Some (DResolved r)) /\
  In (OEnqueue [5]) (snd (step m (EAdd [5]))) /\
  In (OStartReturn false) (snd (step m (EStart None))).
Proof.
  intros es m.
  destruct (endless_never_completes (T:=Z) 1 es
              ltac:(repeat constructor; discriminate)) as (H1 & H2 & H3).
  split; [vm_compute; reflexivity|].
  split; [vm_compute; reflexivity|].
  split; [vm_compute; reflexivity|].
  split; [exact H1|].
  split; [exact (proj1 (H2 [5]))|exact (proj1 (H3 None))].
Defined.

(** C8: witness.  One task, run to completion, then [reset()]. *)
Lemma reset_after_completion_witness :
  let m := fst (run (init (T:=Z) 1 false)
                  [EAdd [5]; EStart None; EInvoke 0; ESettle 0 Fulfilled]) in
  fst (run m [EReset; EResetThen]) =
    set_retries (retries m) (init (concurrency m) (endless m)).
Proof.
  refine (proj1 (reset_after_completion 1 false
            [EAdd [5]; EStart None; EInvoke 0; ESettle 0 Fulfilled]
            {| r_fulfilled := 1; r_rejected := 0; r_total := 1 |} _ _ _));
    vm_compute; reflexivity.
Defined.


(** C6: witness.  Two items, one admission slot, one completion. *)
Lemma indices_in_enqueue_order_witness :
  let (m, o) := run (init (T:=Z) 1 false)
                  [EAdd [4; 5]; EStart None; EInvoke 0; ESettle 0 Fulfilled] in
  map fst (admissions o) ++ _tasksData m = enqueued o.
Proof.
  pose proof (indices_in_enqueue_order (T:=Z) 1 false
                [EAdd [4; 5]; EStart None; EInvoke 0; ESettle 0 Fulfilled]
                ltac:(repeat constructor; discriminate)) as H.
  destruct (run _ _) as [m o].
  exact (proj1 (proj2 H)).
Defined.

(** C2: failing input.  [concurrency = 2]; one task running; [pause()];
    then [add([2])]: the item is admitted at once (index 1) while the pool is
    pausing, and the pause promise now also waits for it. *)
Lemma paused_add_admits :
  let '(m, o) := run (init (T:=Z) 2 false)
                   [EAdd [1]; EStart None; EPause; EAdd [2]] in
  _pauseDeferred m = Some PPending /\ In (OAdmit 2 1) o /\
  _currentConcurrency m = 2 /\ _tasksData m = [].
Proof. vm_compute. repeat split; auto 10. Qed.

(** C1: counterexample.  The observer throws on every event; two tasks both
    succeed.  The second event is still delivered after the first throw,
    the completion deferred stays pending (it is never rejected), and, since
    the throw skipped [_next], the slots are never released. *)
Lemma observer_error_not_captured :
  let '(m, o) := run (init (T:=Z) 2 false)
                   [EAdd [1; 2]; EStart (Some (fun _ => Some 7%nat));
                    EInvoke 0; EInvoke 1; ESettle 0 Fulfilled;
                    ESettle 0 Fulfilled] in
  count_progress o = 2%nat /\ _deferred m = Some DPending /\
  inflight m = [] /\ _currentConcurrency m = 2.
Proof. vm_compute. repeat split; reflexivity. Qed.


(** ** Further properties of the TypeScript pool *)

Section Extras.
Context {T : Type}.

(** The admission loop stops only on an empty backlog or a full pool. *)
Lemma sweep_maximal (m : machine T) :
  _tasksData (admit_n (sweep_count m) m) = [] \/
  concurrency m <= _currentConcurrency m + Z.of_nat (sweep_count m).
Proof.
  unfold sweep_count, admit_n; cbn.
  destruct (Nat.le_ge_cases (List.length (_tasksData m))
              (Z.to_nat (concurrency m - _currentConcurrency m))) as [H|H].
  - left. rewrite Nat.min_l by exact H. apply skipn_all.
  - right. rewrite Nat.min_r by exact H. lia.
Qed.

(** X1: a pool constructed with an initial array [l] has [total] and
    [pending] equal to its length, admits its first [min(|l|, concurrency)]
    items with indices [0, 1, ...] and keeps the rest as its backlog; the
    constructor throws a [TypeError] exactly when the pool is not endless and
    [concurrency <= 0] or the array is empty. *)
Theorem constructor_with_tasks c e (l : list T) :
  let k := Nat.min (List.length l) (Z.to_nat c) in
  let '(r, m, o) := new_pool c e (Some l) in
  total m = Z.of_nat (List.length l) /\ pending m = Z.of_nat (List.length l) /\
  admissions o = indexed 0 (firstn k l) /\ _tasksData m = skipn k l /\
  _currentConcurrency m = Z.of_nat k /\
  (r = inl ExnType <-> e = false /\ (c <= 0 \/ l = [])) /\
  (r <> inl ExnType -> r = inr tt).
Proof.
  intros k. unfold new_pool, add, bind, get, modify, tell, accomplished.
  cbn -[_start]. rewrite _start_eq. unfold start_res, sweep_count. cbn.
  replace (c - 0) with c by lia. fold k.
  assert (Hk : (k = 0)%nat <-> c <= 0 \/ l = []).
  { subst k. destruct l as [|d l]; [cbn; split; auto|].
    change (List.length (d :: l)) with (S (List.length l)).
    split; [intros H; left; lia|intros [H|H]; [lia|discriminate]]. }
  destruct e; cbn.
  - repeat split; try lia; try apply admissions_admit_outs;
      try discriminate; try (intros [H _]; discriminate).
  - destruct (Z.of_nat k =? 0) eqn:E; bool_facts; cbn.
    + repeat split; try lia; try apply admissions_admit_outs;
        try (apply Hk; lia). intros H; exfalso; apply H; reflexivity.
    + repeat split; try lia; try apply admissions_admit_outs;
        try discriminate.
      intros [_ H]. apply Hk in H. lia.
Qed.

(** X2: [start()] on a pool that has already been started changes
    nothing: it warns (with the [resume] hint when a pause is set, the
    [reset] hint otherwise) and returns the completion promise, or [null]
    when endless. *)
Theorem start_when_started_warns (m : machine T) obs :
  _deferred m <> None ->
  step m (EStart obs) =
    (m, [OWarn (match _pauseDeferred m with
                | Some _ => "tasks pool has already been started, use resume to continue the tasks."%string
                | None => "tasks pool has already been started, reset it before start it again."%string
                end);
         OStartReturn (negb (endless m))]).
Proof.
  intros H. unfold step, dispatch, catch_to, try_catch, start, bind, get, tell.
  destruct (_deferred m) as [d|]; [|congruence].
  destruct (_pauseDeferred m); reflexivity.
Qed.

(** X3: [start(onProgress)] on a pool not yet started installs the
    observer and admits backlog items in order, from the current index,
    until the backlog is empty or [runningCount] reaches [concurrency]; the
    completion deferred is created resolved exactly when the pool is not
    endless and no task runs afterwards. *)
Theorem start_fresh (m : machine T) obs :
  _deferred m = None ->
  let k := sweep_count m in
  let (m', o) := step m (EStart obs) in
  onProgress m' = obs /\
  admissions o = indexed (_index m) (firstn k (_tasksData m)) /\
  _tasksData m' = skipn k (_tasksData m) /\
  _currentConcurrency m' = _currentConcurrency m + Z.of_nat k /\
  (_tasksData m' = [] \/ concurrency m' <= _currentConcurrency m') /\
  _deferred m' = Some (if negb (endless m) && (_currentConcurrency m' =? 0)
                       then DResolved (result_of m') else DPending) /\
  o = admit_outs (_index m) (firstn k (_tasksData m)) ++ [OStartReturn (negb (endless m))].
Proof.
  intros Hd k.
  pose proof (sweep_maximal (set_deferred (Some DPending) (set_onProgress obs m))) as Hmax.
  unfold step, dispatch, catch_to, try_catch, start, bind, get, modify, tell.
  rewrite Hd. cbn -[_start]. rewrite _start_eq. unfold start_res.
  replace (sweep_count (set_deferred (Some DPending) (set_onProgress obs m)))
    with k in * by reflexivity.
  cbn in *.
  destruct (negb (endless m) && (_currentConcurrency m + Z.of_nat k =? 0)) eqn:E;
    cbn; rewrite ?E, ?app_nil_r; (repeat split;
      [rewrite admissions_app, admissions_admit_outs; apply app_nil_r| ..]);
    auto.
Qed.

(** X4: a pool that is not endless, runs no task and has
    [concurrency <= 0] resolves its completion promise as soon as [start()]
    is called, with the counters of that moment, while its backlog and
    [pending] stay as they were. *)
Theorem start_without_capacity_completes (m : machine T) obs :
  _deferred m = None -> endless m = false -> _currentConcurrency m = 0 ->
  concurrency m <= 0 ->
  let (m', o) := step m (EStart obs) in
  _deferred m' = Some (DResolved (result_of m)) /\
  _tasksData m' = _tasksData m /\ pending m' = pending m /\ admissions o = [].
Proof.
  intros Hd He Hc Hk.
  assert (H0 : sweep_count m = 0%nat).
  { unfold sweep_count. replace (Z.to_nat (concurrency m - _currentConcurrency m))
      with 0%nat by lia. apply Nat.min_0_r. }
  unfold step, dispatch, catch_to, try_catch, start, bind, get, modify, tell.
  rewrite Hd. cbn -[_start]. rewrite _start_eq. unfold start_res.
  change (sweep_count (set_deferred (Some DPending) (set_onProgress obs m)))
    with (sweep_count m).
  rewrite H0, admit_n_0. cbn. rewrite He, Hc. cbn.
  repeat split; reflexivity.
Qed.

(** A settlement while paused: no admission, backlog, index and pause kept. *)
Lemma paused_settle_aux (m : machine T) k o :
  _pauseDeferred m <> None ->
  let (m', out) := step m (ESettle k o) in
  admissions out = [] /\ _tasksData m' = _tasksData m /\ _index m' = _index m /\
  _pauseDeferred m' <> None.
Proof.
  intros Hp.
  unfold step, dispatch, catch_to, try_catch, on_fulfilled, on_fail, _next,
    _notifyProgress, resolve_pause, bind, get, modify, tell, ret, throw; sym.
  all: cbn in *; repeat split; congruence.
Qed.

(** X5: with no progress observer installed (so that no user code runs
    inside the settlement handlers), while a pause is set a running task
    settling admits no task and leaves the backlog and the next index
    unchanged; the pause stays set, and when no task runs any more the pause
    promise is resolved. *)
Theorem paused_settle_admits_nothing (m : machine T) k o :
  Inv m -> _pauseDeferred m <> None -> onProgress m = None ->
  let (m', out) := step m (ESettle k o) in
  admissions out = [] /\ _tasksData m' = _tasksData m /\ _index m' = _index m /\
  _pauseDeferred m' <> None /\
  (_currentConcurrency m' = 0 -> _pauseDeferred m' = Some PResolved).
Proof.
  intros HI Hp _.
  pose proof (Inv_step m (ESettle k o) HI) as HI'.
  pose proof (paused_settle_aux m k o Hp) as HA.
  destruct (step m (ESettle k o)) as [m' out].
  destruct HI' as (_ & _ & H3 & _). cbn in H3.
  destruct HA as (H1 & H2 & H4 & H5).
  repeat split; auto. intros Hc.
  destruct (_pauseDeferred m') as [[]|]; [|reflexivity|congruence].
  exfalso; apply H3; auto.
Qed.

(** [admit_outs] emits only [OAdmit]. *)
Lemma admit_outs_admits_only i (l : list T) x :
  In x (admit_outs i l) -> exists d j, x = OAdmit d j.
Proof.
  revert i; induction l as [|d l IH]; intros i; cbn; [tauto|].
  intros [H|H]; [eauto|eapply IH; eauto].
Qed.

(** X6: on a pool with no pause set, [reset()] called while tasks run,
    followed by [resume()] before they finish, is dropped: its callback never runs, no [reset] promise
    resolves, and the counters and the completion deferred are untouched. *)
Theorem resume_cancels_waiting_reset (m : machine T) :
  _pauseDeferred m = None -> 0 < _currentConcurrency m ->
  let (m', o) := run m [EReset; EResume] in
  resetsWaiting m' = 0%nat /\ resetsReady m' = resetsReady m /\
  _pauseDeferred m' = None /\ _deferred m' = _deferred m /\
  fulfilled m' = fulfilled m /\ rejected m' = rejected m /\
  pending m' = pending m /\ total m' = total m /\ ~ In OResetDone o.
Proof.
  intros Hp Hc.
  unfold run, step, dispatch, catch_to, try_catch, reset, pause, resume,
    resolve_pause, bind, get, modify, tell, ret.
  rewrite Hp. cbn -[_start].
  replace (_currentConcurrency m =? 0) with false
    by (symmetry; apply Z.eqb_neq; lia). cbn -[_start].
  rewrite _start_eq. unfold start_res. cbn.
  match goal with |- context [_currentConcurrency m + ?x =? 0] =>
    replace (_currentConcurrency m + x =? 0) with false
      by (symmetry; apply Z.eqb_neq; lia) end.
  rewrite andb_false_r. cbn.
  repeat split; try reflexivity.
  rewrite !app_nil_r. intros HH. apply admit_outs_admits_only in HH.
  destruct HH as (? & ? & ?); discriminate.
Qed.

(** X7: once the completion deferred is resolved with a result, no event
    other than the callback of [reset()] changes it. *)
Theorem completion_result_frozen (m : machine T) e r :
  _deferred m = Some (DResolved r) -> e <> EResetThen ->
  _deferred (fst (step m e)) = Some (DResolved r).
Proof.
  intros Hd He.
  destruct e; unfold step, dispatch, catch_to, try_catch, add, start, pause,
    resume, reset, reset_then, on_fulfilled, on_fail, _next, _notifyProgress,
    resolve_pause, bind, get, modify, tell, ret, throw; sym.
  all: cbn in *; rewrite ?Hd in *; try congruence.
  all: match goal with H : Some ?d = Some (DResolved _) |- _ =>
         injection H as ->; reflexivity end.
Qed.

(** [_start] resolves the deferred only with no task running. *)
Lemma start_res_idle (m : machine T) :
  resolved m = false ->
  let '(r, m1, o) := start_res m in
  resolved m1 = true ->
  _currentConcurrency m1 = 0 /\ endless m1 = false /\
  (_tasksData m1 = [] \/ concurrency m1 <= 0).
Proof.
  intros H. pose proof (sweep_maximal m) as Hmax. unfold start_res.
  destruct (negb (endless m) &&
            (_currentConcurrency (admit_n (sweep_count m) m) =? 0)) eqn:E.
  - bool_facts. cbn in *.
    destruct (_deferred m) as [d|] eqn:Ed; cbn.
    + intros _. split; [lia|split; [assumption|]].
      destruct Hmax; [left; assumption|right; lia].
    + unfold resolved; cbn; rewrite Ed; discriminate.
  - unfold resolved in *. cbn. rewrite H. discriminate.
Qed.

Ltac sym_keep :=
  repeat (progress (cbn -[_start start_res] in *; rewrite ?_start_eq)
          || split_match).

(** X8: the completion promise becomes resolved only when no task is
    running, the pool is not endless, and the backlog is empty or
    [concurrency <= 0]. *)
Theorem completion_only_when_idle (m : machine T) e :
  resolved m = false -> resolved (fst (step m e)) = true ->
  let m' := fst (step m e) in
  _currentConcurrency m' = 0 /\ endless m' = false /\
  (_tasksData m' = [] \/ concurrency m' <= 0).
Proof.
  destruct e; unfold step, dispatch, catch_to, try_catch, add, start, pause,
    resume, reset, reset_then, on_fulfilled, on_fail, _next, _notifyProgress,
    resolve_pause, bind, get, modify, tell, ret, throw; sym_keep.
  all: intros H0 H1;
    repeat match goal with E : ?p = _ |- _ => is_var p; subst p end;
    first
      [ match goal with E : start_res ?X = (?r1, ?m1, ?o1) |- _ =>
          pose proof (start_res_idle X) as HL; rewrite E in HL; apply HL;
          [unfold resolved in *; cbn in *; first [reflexivity | assumption]
          | assumption] end
      | unfold resolved in H0, H1; cbn in H0, H1; congruence ].
Qed.

(** X9: when the observer throws on the progress event of a failed
    attempt that has retries left, the task's chain ends with an unhandled
    rejection: nothing is retried, no counter changes and the task's slot
    is never released. *)
Theorem retry_notification_throw_drops_task (m : machine T) k t reason f x :
  onProgress m = Some f -> nth_error (inflight m) k = Some t ->
  t_running t = true -> limit_truthy (t_left t) = true ->
  f (snapshot m (t_index t) false (Some reason) (Some (t_left t))) = Some x ->
  step m (ESettle k (Rejected reason)) =
    (set_inflight (remove_nth k (inflight m)) m,
     [OProgress (snapshot m (t_index t) false (Some reason) (Some (t_left t))) (Some x);
      OUnhandled (ExnObserver x)]).
Proof.
  intros Hf Hn Hr Hl Hx.
  unfold step, dispatch, try_catch, on_fail, _notifyProgress,
    bind, get, modify, tell, ret, throw.
  rewrite Hn, Hr. cbn -[snapshot]. rewrite Hl.
  change (onProgress (set_inflight ?l m)) with (onProgress m). rewrite Hf.
  change (snapshot (set_inflight _ m)) with (snapshot m). rewrite Hx. cbn.
  rewrite remove_replace_nth, set_inflight_twice. reflexivity.
Qed.

(** [_start]: maximal in-order admission, counters kept. *)
Lemma start_res_sweep (m : machine T) :
  let '(r, m1, o) := start_res m in
  (_tasksData m1 = [] \/ concurrency m1 <= _currentConcurrency m1) /\
  admissions o = indexed (_index m) (firstn (sweep_count m) (_tasksData m)) /\
  _tasksData m1 = skipn (sweep_count m) (_tasksData m) /\
  fulfilled m1 = fulfilled m /\ rejected m1 = rejected m /\
  pending m1 = pending m /\ total m1 = total m.
Proof.
  pose proof (sweep_maximal m) as Hmax. unfold start_res.
  destruct (negb (endless m) && _) eqn:E; [destruct (_deferred m)|]; cbn in *;
    (split; [destruct Hmax; [left|right]; lia || assumption|]);
    (split; [apply admissions_admit_outs|]); repeat split.
Qed.

(** X10: when a running task finishes for good (fulfilled, or rejected
    with no retries left), no pause is set and no progress observer is
    installed (so that no user code runs inside the handlers),
    [fulfilled + rejected] rises by one, [pending] drops by one, and the
    backlog is admitted in order until it is empty or the pool is full. *)
Theorem finished_task_slot_refilled (m : machine T) k t o :
  nth_error (inflight m) k = Some t -> t_running t = true ->
  (o = Fulfilled \/
   (exists reason, o = Rejected reason) /\ limit_truthy (t_left t) = false) ->
  _pauseDeferred m = None -> onProgress m = None ->
  let (m', out) := step m (ESettle k o) in
  fulfilled m' + rejected m' = fulfilled m + rejected m + 1 /\
  pending m' = pending m - 1 /\ total m' = total m /\
  (_tasksData m' = [] \/ concurrency m' <= _currentConcurrency m') /\
  exists n, admissions out = indexed (_index m) (firstn n (_tasksData m)) /\
            _tasksData m' = skipn n (_tasksData m).
Proof.
  intros Hn Hr Ho Hp Hnone.
  assert (Hs : silent m) by (intros f Hf; congruence).
  unfold step, dispatch, catch_to, try_catch, on_fulfilled, on_fail, _next,
    _notifyProgress, bind, get, modify, tell, ret, throw.
  rewrite Hn, Hr.
  destruct Ho as [->|[[reason ->] Hl]]; [|rewrite Hl]; sym_keep.
  all: try (exfalso; match goal with
              | H : onProgress _ = Some ?f, H' : ?f _ = Some _ |- _ =>
                rewrite (Hs f H) in H'; discriminate end).
  all: try congruence.
  all: repeat match goal with E : ?p = _ |- _ => is_var p; subst p end.
  all: match goal with E : start_res ?X = (?r1, ?m1, ?o1) |- _ =>
         pose proof (start_res_sweep X) as HL; rewrite E in HL end.
  all: cbn in HL; destruct HL as (H1 & H2 & H3 & H4 & H5 & H6 & H7);
    (split; [lia|split; [lia|split; [lia|split; [exact H1|]]]]);
    eexists; split; [|exact H3];
    try change (flat_map ?f ?l) with (admissions l);
    rewrite ?admissions_app, ?admissions_cons, H2; cbn; rewrite ?app_nil_r;
    reflexivity.
Qed.

End Extras.

(** X2: witness. *)
Lemma start_when_started_warns_witness :
  let m := fst (run (init (T:=Z) 1 false) [EStart None]) in
  step m (EStart None) =
    (m, [OWarn "tasks pool has already been started, reset it before start it again."%string;
         OStartReturn true]).
Proof.
  intros m.
  rewrite (start_when_started_warns m None ltac:(vm_compute; discriminate)).
  reflexivity.
Defined.

(** X3: witness. *)
Lemma start_fresh_witness :
  let m := fst (run (init (T:=Z) 0 true) [EAdd [4; 5; 6]; ESetConcurrency 2]) in
  let (m', o) := step m (EStart None) in
  admissions o = [(4, 0); (5, 1)] /\ _tasksData m' = [6] /\
  _deferred m' = Some DPending.
Proof.
  intros m. pose proof (start_fresh m None ltac:(vm_compute; reflexivity)) as H.
  destruct (step m (EStart None)) as [m' o].
  destruct H as (_ & H2 & H3 & _ & _ & H6 & _).
  rewrite H2, H3, H6. vm_compute. repeat split.
Defined.

(** X4: witness. *)
Lemma start_without_capacity_completes_witness :
  let m := fst (run (init (T:=Z) 0 true) [EAdd [4]; ESetEndless false]) in
  let (m', o) := step m (EStart None) in
  _deferred m' = Some (DResolved {| r_fulfilled := 0; r_rejected := 0; r_total := 1 |}) /\
  pending m' = 1.
Proof.
  intros m.
  pose proof (start_without_capacity_completes m None ltac:(vm_compute; reflexivity)
    ltac:(vm_compute; reflexivity) ltac:(vm_compute; reflexivity)
    ltac:(vm_compute; discriminate)) as H.
  destruct (step m (EStart None)) as [m' o].
  destruct H as (H1 & _ & H3 & _). rewrite H1, H3. vm_compute. split; reflexivity.
Defined.

(** X5: witness. *)
Lemma paused_settle_admits_nothing_witness :
  let m := fst (run (init (T:=Z) 1 true) [EAdd [4; 5]; EStart None; EPause; EInvoke 0]) in
  let (m', out) := step m (ESettle 0 Fulfilled) in
  admissions out = [] /\ _tasksData m' = _tasksData m /\ _index m' = _index m /\
  _pauseDeferred m' <> None /\
  (_currentConcurrency m' = 0 -> _pauseDeferred m' = Some PResolved).
Proof.
  intros m.
  exact (paused_settle_admits_nothing m 0 Fulfilled (Inv_run _ _ (Inv_init _ _))
           ltac:(vm_compute; discriminate) ltac:(vm_compute; reflexivity)).
Defined.

(** X6: witness. *)
Lemma resume_cancels_waiting_reset_witness :
  let m := fst (run (init (T:=Z) 1 true) [EAdd [4]]) in
  let (m', o) := run m [EReset; EResume] in
  resetsWaiting m' = 0%nat /\ resetsReady m' = resetsReady m /\
  _pauseDeferred m' = None /\ _deferred m' = _deferred m /\
  fulfilled m' = fulfilled m /\ rejected m' = rejected m /\
  pending m' = pending m /\ total m' = total m /\ ~ In OResetDone o.
Proof.
  intros m.
  exact (resume_cancels_waiting_reset m ltac:(vm_compute; reflexivity)
           ltac:(vm_compute; reflexivity)).
Defined.

(** X7: witness. *)
Lemma completion_result_frozen_witness :
  let m := fst (run (init (T:=Z) 1 false) [EStart None]) in
  _deferred (fst (step m (EAdd [4]))) =
    Some (DResolved {| r_fulfilled := 0; r_rejected := 0; r_total := 0 |}).
Proof.
  intros m.
  exact (completion_result_frozen m (EAdd [4]) _ ltac:(vm_compute; reflexivity)
           ltac:(discriminate)).
Defined.

(** X8: witness. *)
Lemma completion_only_when_idle_witness :
  let m := fst (run (init (T:=Z) 1 true)
                  [EAdd [4]; EStart None; ESetEndless false; EInvoke 0]) in
  let m' := fst (step m (ESettle 0 Fulfilled)) in
  _currentConcurrency m' = 0 /\ endless m' = false /\
  (_tasksData m' = [] \/ concurrency m' <= 0).
Proof.
  intros m.
  exact (completion_only_when_idle m (ESettle 0 Fulfilled)
           ltac:(vm_compute; reflexivity) ltac:(vm_compute; reflexivity)).
Defined.

(** X9: witness. *)
Lemma retry_notification_throw_drops_task_witness :
  let m := fst (run (init (T:=Z) 1 true)
                  [ESetRetries (Fin 1); EAdd [3]; EStart (Some (fun _ => Some 9%nat));
                   EInvoke 0]) in
  step m (ESettle 0 (Rejected 1%nat)) =
    (set_inflight (remove_nth 0 (inflight m)) m,
     [OProgress (snapshot m 0 false (Some 1%nat) (Some (Fin 1))) (Some 9%nat);
      OUnhandled (ExnObserver 9%nat)]).
Proof.
  intros m.
  exact (retry_notification_throw_drops_task m 0
           {| t_data := 3; t_index := 0; t_left := Fin 1; t_running := true |}
           1%nat (fun _ => Some 9%nat) 9%nat ltac:(vm_compute; reflexivity)
           ltac:(vm_compute; reflexivity) eq_refl eq_refl eq_refl).
Defined.

(** X10: witness. *)
Lemma finished_task_slot_refilled_witness :
  let m := fst (run (init (T:=Z) 1 true) [EAdd [4; 5]; EStart None; EInvoke 0]) in
  let (m', out) := step m (ESettle 0 Fulfilled) in
  fulfilled m' + rejected m' = fulfilled m + rejected m + 1 /\
  pending m' = pending m - 1 /\ total m' = total m /\
  (_tasksData m' = [] \/ concurrency m' <= _currentConcurrency m') /\
  exists n, admissions out = indexed (_index m) (firstn n (_tasksData m)) /\
            _tasksData m' = skipn n (_tasksData m).
Proof.
  intros m.
  exact (finished_task_slot_refilled m 0
           {| t_data := 4; t_index := 0; t_left := Fin 0; t_running := true |}
           Fulfilled ltac:(vm_compute; reflexivity) eq_refl (or_introl eq_refl)
           ltac:(vm_compute; reflexivity) ltac:(vm_compute; reflexivity)).
Defined.


(** ** Properties of the compiled JS pool *)

Section JsFacts.
Context {T : Type}.
Import PoolJs.
Implicit Types (m : machine T).

Lemma js_fst_step m e : fst (step m e) = snd (fst (dispatch e m)).
Proof. unfold step. destruct (dispatch e m) as [[r m'] o]. reflexivity. Qed.

Lemma js_keeps_bind {A B} (x : M (T:=T) A) (k : A -> M (T:=T) B) :
  keeps x -> (forall a, keeps (k a)) -> keeps (bind x k).
Proof.
  intros Hx Hk m. unfold bind. specialize (Hx m).
  destruct (x m) as [[[e|a] m1] o1]; cbn in *; [exact Hx|].
  specialize (Hk a m1). destruct (k a m1) as [[r m2] o2]. cbn in *.
  congruence.
Qed.

Lemma js_keeps_try_catch (x : M (T:=T) unit) h m :
  (forall e, keeps (h e)) ->
  counters (snd (fst (try_catch x h m))) = counters (snd (fst (x m))).
Proof.
  intros Hh. unfold try_catch.
  destruct (x m) as [[[e|a] m1] o1]; cbn; [|reflexivity].
  specialize (Hh e m1). destruct (h e m1) as [[r m2] o2]. exact Hh.
Qed.

Lemma js_keeps_ret {A} (a : A) : keeps (T:=T) (ret a).
Proof. intros m; reflexivity. Qed.
Lemma js_keeps_get : keeps (T:=T) get.
Proof. intros m; reflexivity. Qed.
Lemma js_keeps_tell o : keeps (T:=T) (tell o).
Proof. intros m; reflexivity. Qed.
Lemma js_keeps_throw {A} e : keeps (T:=T) (throw (A:=A) e).
Proof. intros m; reflexivity. Qed.
Lemma js_keeps_modify (f : machine T -> machine T) :
  (forall m, counters (f m) = counters m) -> keeps (modify f).
Proof. intros H m. apply H. Qed.

Create HintDb keeps.
#[local] Hint Resolve js_keeps_bind js_keeps_ret js_keeps_get js_keeps_tell
  js_keeps_throw : keeps.
#[local] Hint Extern 1 (keeps (modify _)) =>
  apply js_keeps_modify; intros [] ; try reflexivity;
  repeat match goal with |- context [match ?x with _ => _ end] => destruct x end;
  reflexivity : keeps.
#[local] Hint Extern 2 (keeps (match ?x with _ => _ end)) => destruct x; cbv beta iota : keeps.
#[local] Hint Extern 1 (keeps ((fun _ => _) _)) => cbv beta : keeps.
#[local] Hint Extern 2 (keeps (if ?x then _ else _)) => destruct x : keeps.

Lemma js_keeps_process d i r : keeps (T:=T) (_process d i r).
Proof. unfold _process. eauto 10 with keeps. Qed.
#[local] Hint Resolve js_keeps_process : keeps.

Lemma js_keeps_start_loop fuel : keeps (T:=T) (_start_loop fuel).
Proof. induction fuel; cbn; eauto 20 with keeps. Qed.
#[local] Hint Resolve js_keeps_start_loop : keeps.

Lemma js_keeps_start : keeps (T:=T) _start.
Proof. unfold _start. eauto 20 with keeps. Qed.
#[local] Hint Resolve js_keeps_start : keeps.

Lemma js_keeps_notify i b e r : keeps (T:=T) (_notifyProgress i b e r).
Proof. unfold _notifyProgress. eauto 20 with keeps. Qed.
#[local] Hint Resolve js_keeps_notify : keeps.

Lemma js_keeps_next : keeps (T:=T) _next.
Proof. unfold _next, resolve_pause. eauto 20 with keeps. Qed.
#[local] Hint Resolve js_keeps_next : keeps.

Lemma js_keeps_try_catch' (x : M (T:=T) unit) h :
  keeps x -> (forall e, keeps (h e)) -> keeps (try_catch x h).
Proof. intros Hx Hh m. rewrite js_keeps_try_catch by exact Hh. apply Hx. Qed.
#[local] Hint Resolve js_keeps_try_catch' : keeps.

Lemma js_bind_get {A} (k : machine T -> M A) m : bind get k m = k m m.
Proof. unfold bind, get. destruct (k m m) as [[r m'] o]. reflexivity. Qed.

Lemma js_modify_bind {A} (f : machine T -> machine T) (k : unit -> M A) m :
  snd (fst (bind (modify f) k m)) = snd (fst (k tt (f m))).
Proof. unfold bind, modify. destruct (k tt (f m)) as [[r m'] o]. reflexivity. Qed.

Lemma js_on_value_counters d i r v m :
  counters (snd (fst (on_value (T:=T) d i r v m))) =
    match v with
    | VOther => (fulfilled m + 1, rejected m, pending m - 1, total m)
    | VFalse => if limit_truthy r then counters m
                else (fulfilled m, rejected m + 1, pending m - 1, total m)
    end.
Proof.
  destruct v; unfold on_value; [destruct (limit_truthy r)|].
  - apply js_keeps_bind; eauto with keeps.
  - rewrite !js_modify_bind.
    rewrite (js_keeps_bind _ _ (js_keeps_notify _ _ _ _) (fun _ => js_keeps_next)).
    reflexivity.
  - rewrite !js_modify_bind.
    rewrite (js_keeps_bind _ _ (js_keeps_notify _ _ _ _) (fun _ => js_keeps_next)).
    reflexivity.
Qed.

Lemma js_on_failure_counters d i r f m :
  counters (snd (fst (on_failure (T:=T) d i r f m))) =
    if limit_truthy r then counters m
    else (fulfilled m, rejected m + 1, pending m - 1, total m).
Proof.
  unfold on_failure; destruct (limit_truthy r).
  - apply js_keeps_bind; eauto with keeps.
  - rewrite !js_modify_bind.
    rewrite (js_keeps_bind _ _ (js_keeps_notify _ _ _ _) (fun _ => js_keeps_next)).
    reflexivity.
Qed.

Lemma js_settle_value_counters m k c v :
  nth_error (inflight m) k = Some c -> c_phase c = Running ->
  counters (fst (step m (ESettle k (Resolved v)))) =
    match v with
    | VOther => (fulfilled m + 1, rejected m, pending m - 1, total m)
    | VFalse => if limit_truthy (c_retries c) then counters m
                else (fulfilled m, rejected m + 1, pending m - 1, total m)
    end.
Proof.
  intros Hn Hp. rewrite js_fst_step. unfold dispatch.
  rewrite js_bind_get, Hn, Hp, js_modify_bind.
  rewrite js_keeps_try_catch by eauto with keeps.
  rewrite js_on_value_counters. reflexivity.
Qed.

Lemma js_fail_counters m k c f :
  nth_error (inflight m) k = Some c -> c_phase c = Failing f ->
  counters (fst (step m (EFail k))) =
    if limit_truthy (c_retries c) then counters m
    else (fulfilled m, rejected m + 1, pending m - 1, total m).
Proof.
  intros Hn Hp. rewrite js_fst_step. unfold dispatch.
  rewrite js_bind_get, Hn, Hp, js_modify_bind. unfold catch_to.
  rewrite js_keeps_try_catch by eauto with keeps.
  rewrite js_on_failure_counters. reflexivity.
Qed.


Lemma js_balanced_of m m' :
  counters m' = counters m -> balanced m -> balanced m'.
Proof. unfold counters, balanced. intros H. injection H. lia. Qed.

Lemma js_add_counters items m :
  counters (snd (fst (add (T:=T) items m))) =
    if accomplished m then counters m
    else (fulfilled m, rejected m, pending m + Z.of_nat (List.length items),
          total m + Z.of_nat (List.length items)).
Proof.
  unfold add. rewrite js_bind_get. destruct (accomplished m); [reflexivity|].
  rewrite !js_modify_bind.
  rewrite (js_keeps_bind _ _ (js_keeps_tell _) (fun _ => js_keeps_start)).
  reflexivity.
Qed.

Ltac keeps_solve :=
  repeat first
    [ progress intros
    | progress cbv beta iota
    | apply js_keeps_try_catch'
    | apply js_keeps_bind
    | solve [eauto with keeps]
    | match goal with |- keeps (match ?x with _ => _ end) => destruct x end ].

Lemma js_balanced_step m e :
  e <> EResetThen -> balanced m -> balanced (fst (step m e)).
Proof.
  intros He Hb.
  destruct e as [items|obs| | | | |k|k [v|reason]|k|c|r|b];
    try (exfalso; apply He; reflexivity).
  - assert (H : counters (fst (step m (EAdd items))) =
                 counters (snd (fst (add items m)))).
    { rewrite js_fst_step. cbn [dispatch]. unfold catch_to.
      apply js_keeps_try_catch. eauto with keeps. }
    rewrite js_add_counters in H. destruct (accomplished m).
    + exact (js_balanced_of _ _ H Hb).
    + unfold balanced, counters in *. injection H. lia.
  - apply (js_balanced_of m); [|exact Hb]. rewrite js_fst_step.
    cbn [dispatch]. unfold catch_to, start. keeps_solve.
  - apply (js_balanced_of m); [|exact Hb]. rewrite js_fst_step.
    cbn [dispatch]. unfold catch_to, pause, resolve_pause. keeps_solve.
  - apply (js_balanced_of m); [|exact Hb]. rewrite js_fst_step.
    cbn [dispatch]. unfold catch_to, resume. keeps_solve.
  - apply (js_balanced_of m); [|exact Hb]. rewrite js_fst_step.
    cbn [dispatch]. unfold catch_to, reset, pause, resolve_pause. keeps_solve.
  - apply (js_balanced_of m); [|exact Hb]. rewrite js_fst_step.
    cbn [dispatch]. keeps_solve.
  - destruct (nth_error (inflight m) k) as [c|] eqn:Hn;
      [destruct (c_phase c) eqn:Hp|].
    2: { pose proof (js_settle_value_counters m k c v Hn Hp) as H.
         unfold balanced, counters in *.
         destruct v; [destruct (limit_truthy (c_retries c))|];
           injection H; lia. }
    all: apply (js_balanced_of m); [|exact Hb]; rewrite js_fst_step;
         unfold dispatch; rewrite js_bind_get, Hn; rewrite ?Hp; reflexivity.
  - apply (js_balanced_of m); [|exact Hb]. rewrite js_fst_step.
    cbn [dispatch]. keeps_solve.
  - destruct (nth_error (inflight m) k) as [c|] eqn:Hn;
      [destruct (c_phase c) as [| |f] eqn:Hp|].
    3: { pose proof (js_fail_counters m k c f Hn Hp) as H.
         unfold balanced, counters in *.
         destruct (limit_truthy (c_retries c)); injection H; lia. }
    all: apply (js_balanced_of m); [|exact Hb]; rewrite js_fst_step;
         unfold dispatch; rewrite js_bind_get, Hn; rewrite ?Hp; reflexivity.
  - apply (js_balanced_of m); [|exact Hb]. rewrite js_fst_step. reflexivity.
  - apply (js_balanced_of m); [|exact Hb]. rewrite js_fst_step. reflexivity.
  - apply (js_balanced_of m); [|exact Hb]. rewrite js_fst_step. reflexivity.
Qed.

Lemma js_balanced_run m es :
  Forall (fun e => e <> EResetThen) es -> balanced m -> balanced (fst (run m es)).
Proof.
  revert m; induction es as [|e es IH]; intros m Hes Hm; [exact Hm|].
  inversion Hes; subst. cbn. destruct (step m e) as [m1 o1] eqn:E.
  destruct (run m1 es) as [m2 o2] eqn:E2. cbn.
  replace m2 with (fst (run m1 es)) by (rewrite E2; reflexivity).
  apply IH; auto. replace m1 with (fst (step m e)) by (rewrite E; reflexivity).
  apply js_balanced_step; auto.
Qed.

Lemma js_length_remove_nth k (l : list (chain T)) c :
  nth_error l k = Some c -> List.length (remove_nth k l) = pred (List.length l).
Proof.
  revert k; induction l as [|y l IH]; intros [|k] H; cbn in *; try discriminate.
  - reflexivity.
  - rewrite (IH k H). destruct l; [destruct k; discriminate|reflexivity].
Qed.

(** X11: in the compiled JS pool a processor promise resolving to
    [false] counts as a failure: with retries left the counters are
    unchanged, otherwise [rejected] rises and [pending] drops; any other
    value counts as fulfilled. *)
Theorem js_resolved_value_counts m k c v :
  nth_error (inflight m) k = Some c -> c_phase c = Running ->
  let m' := fst (step m (ESettle k (Resolved v))) in
  (fulfilled m', rejected m', pending m', total m') =
    match v with
    | VOther => (fulfilled m + 1, rejected m, pending m - 1, total m)
    | VFalse => if limit_truthy (c_retries c) then
                  (fulfilled m, rejected m, pending m, total m)
                else (fulfilled m, rejected m + 1, pending m - 1, total m)
    end.
Proof. intros Hn Hp. exact (js_settle_value_counters m k c v Hn Hp). Qed.

(** X12: in the JS pool, a processor promise resolving to [false] with
    retries left (and an observer that does not throw) calls [_process] again
    with one retry fewer; apart from the new chain nothing in the pool
    changes. *)
Theorem js_false_value_resends m k c :
  nth_error (inflight m) k = Some c -> c_phase c = Running ->
  limit_truthy (c_retries c) = true -> silent m ->
  let again := {| c_data := c_data c; c_index := c_index c;
                  c_retries := limit_pred (c_retries c); c_phase := Sent |} in
  fst (step m (ESettle k (Resolved VFalse))) =
    set_inflight (remove_nth k (inflight m) ++ [again]) m /\
  exists o, snd (step m (ESettle k (Resolved VFalse))) =
    o ++ [OProcess (c_data c) (c_index c) (limit_pred (c_retries c))].
Proof.
  intros Hn Hp Ht Hs. unfold step, dispatch. rewrite js_bind_get, Hn, Hp.
  unfold on_value. rewrite Ht. unfold _notifyProgress.
  destruct (onProgress m) as [f|] eqn:Ho.
  all: cbv [try_catch bind get tell throw ret modify _process];
    change (onProgress (set_inflight (remove_nth k (inflight m)) m)) with (onProgress m);
    rewrite Ho; try rewrite (Hs f Ho); (split; [reflexivity|]).
  - exists [OProgress (snapshot (set_inflight (remove_nth k (inflight m)) m)
      (c_index c) false None (c_retries c)) None]. reflexivity.
  - exists []. reflexivity.
Qed.

(** X13: in the JS pool, the [.fail] handler of a task with retries left
    (and an observer that does not throw) calls [_process] again with one
    retry fewer; apart from the new chain nothing in the pool changes. *)
Theorem js_failure_resends m k c f :
  nth_error (inflight m) k = Some c -> c_phase c = Failing f ->
  limit_truthy (c_retries c) = true -> silent m ->
  let again := {| c_data := c_data c; c_index := c_index c;
                  c_retries := limit_pred (c_retries c); c_phase := Sent |} in
  fst (step m (EFail k)) =
    set_inflight (remove_nth k (inflight m) ++ [again]) m /\
  exists o, snd (step m (EFail k)) =
    o ++ [OProcess (c_data c) (c_index c) (limit_pred (c_retries c))].
Proof.
  intros Hn Hp Ht Hs. unfold step, dispatch. rewrite js_bind_get, Hn, Hp.
  unfold catch_to, on_failure. rewrite Ht. unfold _notifyProgress.
  destruct (onProgress m) as [g|] eqn:Ho.
  all: cbv [try_catch bind get tell throw ret modify _process];
    change (onProgress (set_inflight (remove_nth k (inflight m)) m)) with (onProgress m);
    rewrite Ho; try rewrite (Hs g Ho); (split; [reflexivity|]).
  - exists [OProgress (snapshot (set_inflight (remove_nth k (inflight m)) m)
      (c_index c) false (Some f) (c_retries c)) None]. reflexivity.
  - exists []. reflexivity.
Qed.

Lemma js_fst_run2 m e1 e2 :
  fst (run m [e1; e2]) = fst (step (fst (step m e1)) e2).
Proof.
  cbn. destruct (step m e1) as [m1 o1]. cbn [fst]. destruct (step m1 e2) as [m2 o2].
  reflexivity.
Qed.

(** X14: in the JS pool, an observer that throws on success events makes
    a task with no retries that succeeds count twice: the [.fail] handler
    runs after the [.then] handler, so [fulfilled] and [rejected] both rise
    by one and [pending] drops by two. *)
Theorem js_observer_throw_counts_twice m k c f x :
  nth_error (inflight m) k = Some c -> c_phase c = Running ->
  limit_truthy (c_retries c) = false ->
  onProgress m = Some f ->
  (forall p, f p = if p_success p then Some x else None) ->
  let m2 := fst (run m [ESettle k (Resolved VOther);
                        EFail (pred (List.length (inflight m)))]) in
  (fulfilled m2, rejected m2, pending m2, total m2) =
    (fulfilled m + 1, rejected m + 1, pending m - 2, total m).
Proof.
  intros Hn Hp Ht Ho Hf. cbv zeta. rewrite js_fst_run2.
  set (c' := with_phase c (Failing (FThrown (ExnObserver x)))).
  set (m0 := set_inflight (remove_nth k (inflight m)) m).
  assert (E1 : fst (step m (ESettle k (Resolved VOther))) =
               set_inflight (remove_nth k (inflight m) ++ [c'])
                 (decr_pending (incr_fulfilled m0))).
  { unfold step, dispatch. rewrite js_bind_get, Hn, Hp. unfold on_value.
    cbv [try_catch bind get tell throw ret modify _notifyProgress].
    change (onProgress (decr_pending (incr_fulfilled
      (set_inflight (remove_nth k (inflight m)) m)))) with (onProgress m).
    rewrite Ho, Hf. reflexivity. }
  rewrite E1.
  assert (Hn' : nth_error (remove_nth k (inflight m) ++ [c'])
                  (pred (List.length (inflight m))) = Some c').
  { rewrite nth_error_app2; rewrite (js_length_remove_nth k _ c Hn); [|lia].
    rewrite Nat.sub_diag. reflexivity. }
  pose proof (js_fail_counters (set_inflight (remove_nth k (inflight m) ++ [c'])
    (decr_pending (incr_fulfilled m0))) _ c' (FThrown (ExnObserver x)) Hn' eq_refl) as H.
  cbn [c_retries c' with_phase] in H. rewrite Ht in H.
  unfold counters in H. rewrite H. cbn. f_equal. f_equal. lia.
Qed.

(** X15: in the JS pool, the callback of [reset()] clears [fulfilled],
    [rejected], [total], the index, the backlog, both deferreds and the
    observer, but not [pending]; with tasks pending the counter equation
    no longer holds afterwards. *)
Theorem js_reset_keeps_pending m :
  resetsReady m <> O ->
  let '(m', o) := step m EResetThen in
  fulfilled m' = 0 /\ rejected m' = 0 /\ total m' = 0 /\
  pending m' = pending m /\ tasksData m' = [] /\ _index m' = 0 /\
  _deferred m' = None /\ _pauseDeferred m' = None /\ onProgress m' = None /\
  resetsReady m' = pred (resetsReady m) /\ o = [OResetDone] /\
  (pending m <> 0 -> ~ balanced m').
Proof.
  intros Hr. unfold step, dispatch. rewrite js_bind_get.
  destruct (resetsReady m) as [|n] eqn:E; [contradiction|].
  cbn. unfold balanced. cbn. repeat split; auto; lia.
Qed.

(** X16: in the JS pool, [total = fulfilled + rejected + pending] holds
    after any sequence of events from construction that does not run the
    callback of [reset()]. *)
Theorem js_counters_equation_without_reset c en (es : list (event T)) :
  Forall (fun e => e <> EResetThen) es ->
  balanced (fst (run (init c en) es)).
Proof.
  intros Hes. apply js_balanced_run; [exact Hes|]. reflexivity.
Qed.

End JsFacts.

Section JsWitnesses.
Import PoolJs.

(** X11: witness. *)
Lemma js_resolved_value_counts_witness :
  let m := fst (run (init (T:=Z) 1 true) [EAdd [4]; EInvoke 0]) in
  let m' := fst (step m (ESettle 0 (Resolved VFalse))) in
  (fulfilled m', rejected m', pending m', total m') = (0, 1, 0, 1).
Proof.
  intros m.
  exact (js_resolved_value_counts m 0
           {| c_data := 4; c_index := 0; c_retries := Fin 0; c_phase := Running |}
           VFalse ltac:(vm_compute; reflexivity) eq_refl).
Defined.

(** X12: witness. *)
Lemma js_false_value_resends_witness :
  let m := fst (run (init (T:=Z) 1 true) [ESetRetries (Fin 2); EAdd [4]; EInvoke 0]) in
  fst (step m (ESettle 0 (Resolved VFalse))) =
    set_inflight [{| c_data := 4; c_index := 0; c_retries := Fin 1; c_phase := Sent |}] m /\
  exists o, snd (step m (ESettle 0 (Resolved VFalse))) = o ++ [OProcess 4 0 (Fin 1)].
Proof.
  intros m.
  exact (js_false_value_resends m 0
           {| c_data := 4; c_index := 0; c_retries := Fin 2; c_phase := Running |}
           ltac:(vm_compute; reflexivity) eq_refl eq_refl
           ltac:(intros f Hf; vm_compute in Hf; discriminate)).
Defined.

(** X13: witness. *)
Lemma js_failure_resends_witness :
  let m := fst (run (init (T:=Z) 1 true)
                  [ESetRetries (Fin 2); EAdd [4]; EInvoke 0; ESettle 0 (Rejected 3%nat)]) in
  fst (step m (EFail 0)) =
    set_inflight [{| c_data := 4; c_index := 0; c_retries := Fin 1; c_phase := Sent |}] m /\
  exists o, snd (step m (EFail 0)) = o ++ [OProcess 4 0 (Fin 1)].
Proof.
  intros m.
  exact (js_failure_resends m 0
           {| c_data := 4; c_index := 0; c_retries := Fin 2;
              c_phase := Failing (FReason 3%nat) |} (FReason 3%nat)
           ltac:(vm_compute; reflexivity) eq_refl eq_refl
           ltac:(intros f Hf; vm_compute in Hf; discriminate)).
Defined.

(** X14: witness. *)
Lemma js_observer_throw_counts_twice_witness :
  let f := fun p => if p_success p then Some 9%nat else None in
  let m := fst (run (init (T:=Z) 1 true) [EAdd [4]; EStart (Some f); EInvoke 0]) in
  let m2 := fst (run m [ESettle 0 (Resolved VOther); EFail 0]) in
  (fulfilled m2, rejected m2, pending m2, total m2) = (1, 1, -1, 1).
Proof.
  intros f m.
  exact (js_observer_throw_counts_twice m 0
           {| c_data := 4; c_index := 0; c_retries := Fin 0; c_phase := Running |}
           f 9%nat ltac:(vm_compute; reflexivity) eq_refl eq_refl
           ltac:(vm_compute; reflexivity) (fun p => eq_refl)).
Defined.

(** X15: witness. *)
Lemma js_reset_keeps_pending_witness :
  let m := fst (run (init (T:=Z) 1 false)
                  [EAdd [1; 2]; EStart None; EReset; EInvoke 0; ESettle 0 (Resolved VOther)]) in
  let '(m', o) := step m EResetThen in
  pending m' = 1 /\ total m' = 0 /\ ~ balanced m'.
Proof.
  intros m.
  pose proof (js_reset_keeps_pending m ltac:(vm_compute; discriminate)) as H.
  destruct (step m EResetThen) as [m' o].
  destruct H as (_ & _ & H3 & H4 & _ & _ & _ & _ & _ & _ & _ & H12).
  rewrite H4, H3. split; [vm_compute; reflexivity|split; [reflexivity|]].
  apply H12. vm_compute. discriminate.
Defined.

(** X16: witness. *)
Lemma js_counters_equation_without_reset_witness :
  balanced (fst (run (init (T:=Z) 1 false)
                   [EAdd [4; 5]; EStart None; EInvoke 0; ESettle 0 (Resolved VOther)])).
Proof.
  apply js_counters_equation_without_reset. repeat constructor; discriminate.
Defined.

End JsWitnesses.

End PromisePool.
